(** * A typed in-memory table store: validators, insertion and aggregates

    Shallow embedding of the table store of [src/unnamed/part_000]
    (the [DataType] strategy hierarchy, [Column], [Row], [Table],
    [Database]) and the properties its specification states about it.

    - [std::string] is [string]; [std::unordered_map<std::string,
      std::string>] is [gmap string string].
    - C++ [int] is a [Z] in the range [INT_MIN .. INT_MAX], with the
      wrap-around of the increment written out.
    - A [throw] is a result value; a method that mutates its object returns
      the object after the call next to that result.
    - [double] arithmetic and [std::stod] are an interface ([DoubleOps]).

    Two more programs of the repository follow the table store: the course
    scheduling program of [src/unnamed/part_001] (module [Scheduling]) and
    the integer and pointer part of the port management program of
    [src/lab2/cpp/main.cpp] (module [Harbour]). *)

From Stdlib Require Import ZArith Lia Ascii String List Bool.
From stdpp Require Import gmap strings list fin_maps sorting.

Local Open Scope string_scope.

(* ===================================================================== *)
(** ** Characters, [<cctype>] and [std::stoi] *)
(* ===================================================================== *)

Module CType.

(** [isspace] in the "C" locale: space, and the controls HT LF VT FF CR. *)
Definition isspace (c : ascii) : bool :=
  let n := nat_of_ascii c in
  Nat.eqb n 32 || (Nat.leb 9 n && Nat.leb n 13).

(** [isdigit]: the ten characters '0'..'9', and no character above 127. *)
Definition isdigit (c : ascii) : bool :=
  let n := nat_of_ascii c in
  Nat.leb 48 n && Nat.leb n 57.

(** The number a digit character stands for. *)
Definition digit_value (c : ascii) : Z := (Z.of_nat (nat_of_ascii c) - 48)%Z.

End CType.

Module Int.

Definition INT_MAX : Z := 2147483647.
Definition INT_MIN : Z := (-2147483648)%Z.

Definition in_range (v : Z) : bool := (INT_MIN <=? v)%Z && (v <=? INT_MAX)%Z.

(** Two's complement wrap-around of a 32-bit [int]. *)
Definition wrap (v : Z) : Z := ((v + 2147483648) mod 4294967296 - 2147483648)%Z.

(** [c++] on an [int]. *)
Definition incr (c : Z) : Z := wrap (c + 1).

End Int.

Module Std.

Import CType.

(** [value.empty()] *)
Definition empty (s : string) : bool :=
  match s with EmptyString => true | String _ _ => false end.

(** [value[i]]; reading at [size()] gives the terminating NUL, and every
    caller below guards the index with a size test. *)
Definition at_ (s : string) (i : nat) : ascii :=
  match String.get i s with Some c => c | None => zero end.

(** The white space [strtol] skips: how many characters, and the rest. *)
Fixpoint skip_space (s : string) : nat * string :=
  match s with
  | String c s' =>
      if isspace c then let '(n, r) := skip_space s' in (S n, r) else (0, s)
  | EmptyString => (0, s)
  end.

(** The optional sign: is it '-', how many characters, and the rest. *)
Definition read_sign (s : string) : bool * nat * string :=
  match s with
  | String "-" s' => (true, 1, s')
  | String "+" s' => (false, 1, s')
  | _ => (false, 0, s)
  end.

(** The longest run of decimal digits, accumulated most significant digit
    first: how many digits, and the number read. *)
Fixpoint read_digits (acc : Z) (s : string) : nat * Z :=
  match s with
  | String c s' =>
      if isdigit c
      then let '(n, v) := read_digits (10 * acc + digit_value c)%Z s' in (S n, v)
      else (0, acc)
  | EmptyString => (0, acc)
  end.

(** [strtol(str, &end, 10)] before any range check: the number read and the
    offset of [end].  With no digit there is no conversion and [end] is the
    start of the text, whatever white space or sign came first. *)
Definition strtol (s : string) : Z * nat :=
  let '(nws, r) := skip_space s in
  let '(neg, nsg, r') := read_sign r in
  let '(nd, v) := read_digits 0 r' in
  match nd with
  | O => (0%Z, O)
  | S _ => ((if neg then - v else v)%Z, nws + nsg + nd)
  end.

Inductive stoi_result : Type :=
| stoi_value (v : Z) (pos : nat)
| invalid_argument
| out_of_range.

(** [std::stoi(str, &pos)] in base 10: [std::invalid_argument] when nothing
    was converted, [std::out_of_range] when [strtol] overflows or the number
    does not fit an [int] (both are: the number is outside the [int]
    range), else the number and the count of characters consumed. *)
Definition stoi (s : string) : stoi_result :=
  let '(v, e) := strtol s in
  match e with
  | O => invalid_argument
  | S _ => if Int.in_range v then stoi_value v e else out_of_range
  end.

End Std.

(* ===================================================================== *)
(** ** The data type strategies *)
(* ===================================================================== *)

Module IntegerType.

Definition validate (value : string) : bool :=
  if Std.empty value then false
  else match Std.stoi value with
       | Std.stoi_value _ pos => Nat.eqb pos (String.length value)
       | _ => false
       end.

Definition getName : string := "Integer".

End IntegerType.

Module StringType.

Definition validate (value : string) : bool := true.

Definition getName : string := "String".

End StringType.

Module BooleanType.

Definition validate (value : string) : bool :=
  String.eqb value "true" || String.eqb value "false"
  || String.eqb value "1" || String.eqb value "0".

Definition getName : string := "Boolean".

End BooleanType.

Module DateType.

(** The loop over the eight digit positions, leaving at the first
    character that is no digit. *)
Fixpoint digits_at (value : string) (positions : list nat) : bool :=
  match positions with
  | [] => true
  | i :: rest =>
      if negb (CType.isdigit (Std.at_ value i)) then false
      else digits_at value rest
  end.

Definition validate (value : string) : bool :=
  if negb (Nat.eqb (String.length value) 10) then false
  else if negb (Ascii.eqb (Std.at_ value 4) "-")
          || negb (Ascii.eqb (Std.at_ value 7) "-") then false
  else digits_at value [0; 1; 2; 3; 5; 6; 8; 9].

Definition getName : string := "Date".

End DateType.

(** The closed set of [DataType] subclasses a column can point to. *)
Inductive DataType : Type :=
| TInteger
| TString
| TBoolean
| TDate.

Definition DataType_validate (ty : DataType) (value : string) : bool :=
  match ty with
  | TInteger => IntegerType.validate value
  | TString => StringType.validate value
  | TBoolean => BooleanType.validate value
  | TDate => DateType.validate value
  end.

Definition DataType_getName (ty : DataType) : string :=
  match ty with
  | TInteger => IntegerType.getName
  | TString => StringType.getName
  | TBoolean => BooleanType.getName
  | TDate => DateType.getName
  end.

(* ===================================================================== *)
(** ** Columns, rows and tables *)
(* ===================================================================== *)

Record Column : Type := mkColumn {
  col_name : string;
  col_type : DataType;
  col_nullable : bool;
  col_primaryKey : bool;
  col_foreignKey : option (string * string)
}.

Module Column.

Definition getName (c : Column) : string := col_name c.
Definition getType (c : Column) : DataType := col_type c.
Definition isPrimaryKey (c : Column) : bool := col_primaryKey c.
Definition isNullable (c : Column) : bool := col_nullable c.
Definition getForeignKey (c : Column) : option (string * string) :=
  col_foreignKey c.

(** An empty value is admissible only in a nullable column; any other
    value is for the type to judge. *)
Definition validate (c : Column) (value : string) : bool :=
  if Std.empty value then col_nullable c
  else DataType_validate (col_type c) value.

End Column.

Record Row : Type := mkRow { getData : gmap string string }.

Record Table : Type := mkTable {
  tbl_name : string;
  columns : list Column;
  rows : list Row
}.

(** What [Table::insert] throws: a [std::runtime_error] carrying one of
    three messages. *)
Inductive insert_error : Type :=
| MissingPrimaryKeyValue (column : string)
| MissingRequiredValue (column : string)
| InvalidColumnValue (value column : string).

(** The text of the [std::runtime_error]. *)
Definition what (e : insert_error) : string :=
  match e with
  | MissingPrimaryKeyValue c =>
      "Invalid INSERT: Missing value for PRIMARY KEY column '" +:+ c +:+ "'"
  | MissingRequiredValue c =>
      "Invalid INSERT: Missing value for NOT NULL column '" +:+ c +:+ "'"
  | InvalidColumnValue v c =>
      "Invalid value '" +:+ v +:+ "' for column '" +:+ c +:+ "'"
  end.

(** How a call of a [void] method ends. *)
Inductive outcome : Type :=
| Returned
| Thrown (e : insert_error).

(** [double] and what the table store asks of it.  [stod] is [std::stod];
    [None] stands for either of its exceptions.  [dzero] is the value of
    the literal [0.0] and of the [int] 0 converted to [double]. *)
Class DoubleOps (double : Type) : Type := {
  dzero : double;
  dadd : double -> double -> double;
  ddiv : double -> double -> double;
  dof_int : Z -> double;
  stod : string -> option double
}.

Module Table.

(** The constructor [Table(n, c)]: no rows. *)
Definition new (n : string) (c : list Column) : Table :=
  {| tbl_name := n; columns := c; rows := [] |}.

Definition getRows (t : Table) : list Row := rows t.

(** The loop of [insert] over the columns, filling the local [rowData];
    a [throw] leaves the loop at once. *)
Fixpoint insert_columns (cols : list Column) (values rowData : gmap string string)
  : insert_error + gmap string string :=
  match cols with
  | [] => inr rowData
  | col :: rest =>
      match values !! Column.getName col with
      | None =>
          if Column.isPrimaryKey col
          then inl (MissingPrimaryKeyValue (Column.getName col))
          else if negb (Column.isNullable col)
          then inl (MissingRequiredValue (Column.getName col))
          else insert_columns rest values (<[Column.getName col := EmptyString]> rowData)
      | Some value =>
          if negb (Column.validate col value)
          then inl (InvalidColumnValue value (Column.getName col))
          else insert_columns rest values (<[Column.getName col := value]> rowData)
      end
  end.

(** [insert]: the table after the call, and how the call ended. *)
Definition insert (t : Table) (values : gmap string string) : Table * outcome :=
  match insert_columns (columns t) values ∅ with
  | inl e => (t, Thrown e)
  | inr rowData =>
      ({| tbl_name := tbl_name t; columns := columns t;
          rows := rows t ++ [mkRow rowData] |}, Returned)
  end.

(** One turn of the loop of [count]. *)
Definition count_step (column : string) (c : Z) (row : Row) : Z :=
  match getData row !! column with
  | Some v => if negb (Std.empty v) then Int.incr c else c
  | None => c
  end.

Definition count (t : Table) (column : string) : Z :=
  fold_left (count_step column) (rows t) 0%Z.

(** The scan of the schema in [sum]: the first column of that name
    decides, and ends the scan. *)
Fixpoint isNumeric (cols : list Column) (column : string) : bool :=
  match cols with
  | [] => false
  | col :: rest =>
      if String.eqb (Column.getName col) column
      then match Column.getType col with TInteger => true | _ => false end
      else isNumeric rest column
  end.

Definition sum_warning (column : string) : string :=
  "Warning: Attempted to SUM non-numeric column '" +:+ column +:+ "'".

Section Aggregates.

Context {double : Type} `{DoubleOps double}.

(** One turn of the loop of [sum]; a value [stod] throws on is passed
    over. *)
Definition sum_step (column : string) (s : double) (row : Row) : double :=
  match getData row !! column with
  | Some v =>
      if negb (Std.empty v)
      then match stod v with Some d => dadd s d | None => s end
      else s
  | None => s
  end.

(** [sum]: the result, and the lines written to [std::cerr]. *)
Definition sum (t : Table) (column : string) : double * list string :=
  if negb (isNumeric (columns t) column)
  then (dzero, [sum_warning column])
  else (fold_left (sum_step column) (rows t) dzero, []).

(** [avg]: the result, and the lines written to [std::cerr]. *)
Definition avg (t : Table) (column : string) : double * list string :=
  let num := count t column in
  if (num =? 0)%Z then (dzero, [])
  else let '(s, err) := sum t column in (ddiv s (dof_int num), err).

End Aggregates.

End Table.

(* ===================================================================== *)
(** ** The database and the builder *)
(* ===================================================================== *)

Inductive database_error : Type :=
| DuplicateTableName (name : string)
| TableNotFound (name : string).

Module Database.

(** The registry after the call, and the new table or the error. *)
Definition createTable (tables : gmap string Table) (name : string)
    (cols : list Column) : gmap string Table * (database_error + Table) :=
  match tables !! name with
  | Some _ => (tables, inl (DuplicateTableName name))
  | None =>
      let table := Table.new name cols in
      (<[name := table]> tables, inr table)
  end.

Definition getTable (tables : gmap string Table) (name : string)
    : database_error + Table :=
  match tables !! name with
  | Some t => inr t
  | None => inl (TableNotFound name)
  end.

End Database.

Record TableBuilder : Type := mkTableBuilder {
  tb_name : string;
  tb_columns : list Column
}.

Module Builder.

Definition new (n : string) : TableBuilder :=
  {| tb_name := n; tb_columns := [] |}.

Definition addColumn (b : TableBuilder) (cname : string) (type : DataType)
    (nullable primaryKey : bool) (fk : option (string * string)) : TableBuilder :=
  {| tb_name := tb_name b;
     tb_columns := tb_columns b ++ [mkColumn cname type nullable primaryKey fk] |}.

Definition build (tables : gmap string Table) (b : TableBuilder)
    : gmap string Table * (database_error + Table) :=
  Database.createTable tables (tb_name b) (tb_columns b).

End Builder.

(** A table the program can hold: made by the constructor (which is what
    [Database::createTable] calls), then changed by [insert] calls only,
    whether they return or throw. *)
Inductive reachable : Table -> Prop :=
| reachable_new (n : string) (c : list Column) : reachable (Table.new n c)
| reachable_insert (t : Table) (values : gmap string string) :
    reachable t -> reachable (fst (Table.insert t values)).

(** The registries the program can reach.  A [std::shared_ptr<Table>] handed
    out by [createTable] or [getTable] points to the table the registry
    holds, so an [insert] through it is an update of that entry. *)
Inductive db_reachable : gmap string Table -> Prop :=
| db_reachable_empty : db_reachable ∅
| db_reachable_createTable (tables : gmap string Table) (name : string)
    (cols : list Column) :
    db_reachable tables ->
    db_reachable (fst (Database.createTable tables name cols))
| db_reachable_insert (tables : gmap string Table) (name : string) (t : Table)
    (values : gmap string string) :
    db_reachable tables -> tables !! name = Some t ->
    db_reachable (<[name := fst (Table.insert t values)]> tables).

(* ===================================================================== *)
(** ** Vocabulary of the specification *)
(* ===================================================================== *)

(** Every character of [s] satisfies [p]. *)
Fixpoint string_forall (p : ascii -> bool) (s : string) : bool :=
  match s with
  | EmptyString => true
  | String c s' => p c && string_forall p s'
  end.

(** The ten ASCII digits. *)
Definition ascii_digits : list ascii :=
  ["0"; "1"; "2"; "3"; "4"; "5"; "6"; "7"; "8"; "9"]%char.

(** The number a string of digits denotes, by the weight of each place. *)
Fixpoint decimal_value (s : string) : Z :=
  match s with
  | EmptyString => 0%Z
  | String c s' =>
      (CType.digit_value c * 10 ^ Z.of_nat (String.length s') + decimal_value s')%Z
  end.

Definition nonempty_digits (s : string) : bool :=
  negb (Std.empty s) && string_forall CType.isdigit s.

(** A whole-string base-10 integer: an optional sign, then one digit or
    more, and nothing else. *)
Definition whole_decimal_integer (s : string) : bool :=
  match s with
  | String "+" ds => nonempty_digits ds
  | String "-" ds => nonempty_digits ds
  | _ => nonempty_digits s
  end.

(** The integer such a text denotes. *)
Definition integer_value (s : string) : Z :=
  match s with
  | String "+" ds => decimal_value ds
  | String "-" ds => (- decimal_value ds)%Z
  | _ => decimal_value s
  end.

(** The first character of [s], if there is one, fails [p]. *)
Definition stops_at (p : ascii -> bool) (s : string) : Prop :=
  match s with
  | EmptyString => True
  | String c _ => p c = false
  end.

(** The shape of a date text: ten characters, dashes at 4 and 7, ASCII
    digits at the eight other places. *)
Definition date_shaped (s : string) : Prop :=
  String.length s = 10 /\
  String.get 4 s = Some "-"%char /\
  String.get 7 s = Some "-"%char /\
  forall i, i < 10 -> i <> 4 -> i <> 7 ->
    exists c, String.get i s = Some c /\ c ∈ ascii_digits.

(** The names of the schema, in declaration order. *)
Definition column_names (t : Table) : list string :=
  Column.getName <$> columns t.

(** [insert] has no objection to this column: a supplied value passes
    [Column::validate], a missing one is for a nullable column that is no
    primary key. *)
Definition column_accepts (values : gmap string string) (col : Column) : bool :=
  match values !! Column.getName col with
  | None => negb (Column.isPrimaryKey col) && Column.isNullable col
  | Some value => Column.validate col value
  end.

(** The row holds a value under [column], and it is not empty. *)
Definition present (column : string) (row : Row) : bool :=
  match getData row !! column with
  | Some v => negb (Std.empty v)
  | None => false
  end.

(** The number of rows with a present, non-empty entry under [column]. *)
Definition present_count (t : Table) (column : string) : Z :=
  Z.of_nat (length (List.filter (present column) (rows t))).

(** The present, non-empty values stored under [column], in row order. *)
Definition present_values (t : Table) (column : string) : list string :=
  omap (fun row => match getData row !! column with
                   | Some v => if Std.empty v then None else Some v
                   | None => None
                   end) (rows t).

(** The declared type of the column called [column]: that of the first
    column of the schema with this name. *)
Definition declared_type (t : Table) (column : string) : option DataType :=
  Column.getType <$> List.find (fun col => String.eqb (Column.getName col) column)
                               (columns t).

Definition declared_integer (t : Table) (column : string) : bool :=
  match declared_type t column with
  | Some TInteger => true
  | _ => false
  end.

(** The value map cut down to the names of the schema. *)
Definition known_values (t : Table) (values : gmap string string)
  : gmap string string :=
  filter (fun kv => kv.1 ∈ column_names t) values.

(** Every column of the schema accepts the value map. *)
Definition accepted (t : Table) (values : gmap string string) : bool :=
  forallb (column_accepts values) (columns t).

(** What [insert] throws for a column it does not accept. *)
Definition rejection (values : gmap string string) (col : Column) : insert_error :=
  match values !! Column.getName col with
  | Some value => InvalidColumnValue value (Column.getName col)
  | None =>
      if Column.isPrimaryKey col
      then MissingPrimaryKeyValue (Column.getName col)
      else MissingRequiredValue (Column.getName col)
  end.

(** The row of a value map for a schema: the supplied values under the
    schema's names, and the empty string under the names left out. *)
Definition schema_row (t : Table) (values : gmap string string)
  : gmap string string :=
  known_values t values ∪ gset_to_gmap EmptyString (list_to_set (column_names t)).

(** The non-empty value a value map supplies for a name of the schema. *)
Definition supplied (t : Table) (values : gmap string string) (column : string)
  : option string :=
  if decide (column ∈ column_names t)
  then match values !! column with
       | Some v => if Std.empty v then None else Some v
       | None => None
       end
  else None.

(** A run of [insert] calls on one table, whether they return or throw. *)
Definition insert_all (t : Table) (batch : list (gmap string string)) : Table :=
  fold_left (fun t' values => fst (Table.insert t' values)) batch t.

(** A run of [addColumn] calls on one builder. *)
Definition add_columns (b : TableBuilder) (cols : list Column) : TableBuilder :=
  fold_left (fun b' c =>
               Builder.addColumn b' (col_name c) (col_type c) (col_nullable c)
                                 (col_primaryKey c) (col_foreignKey c))
            cols b.

(** The table of the demonstration and its three insertions. *)
Definition users_columns : list Column :=
  [ mkColumn "id" TInteger false true None;
    mkColumn "name" TString false false None;
    mkColumn "age" TInteger true false None ].

Definition users0 : Table := Table.new "users" users_columns.

Definition alex : gmap string string :=
  <["id" := "1"]> (<["name" := "Alex"]> (<["age" := "25"]> ∅)).
Definition mira : gmap string string :=
  <["id" := "2"]> (<["name" := "Mira"]> (<["age" := "30"]> ∅)).
Definition sam : gmap string string :=
  <["id" := "3"]> (<["name" := "Sam"]> ∅).

Definition users3 : Table :=
  fst (Table.insert (fst (Table.insert (fst (Table.insert users0 alex)) mira)) sam).

(** The row the third insertion stores. *)
Definition sam_row : Row := mkRow (schema_row users0 sam).


(** A primary key left at the default nullability of [addColumn]. *)
Definition nullable_key : Table :=
  Table.new "t" [ mkColumn "id" TInteger true true None ].

(* ===================================================================== *)
(** ** The course scheduling program *)
(* ===================================================================== *)

(** Shallow embedding of [src/unnamed/part_001] (teachers, sessions,
    coursework, the course factories and [StudentGroup]).  The objects
    behind the [std::shared_ptr]s are never changed once a session or a
    teacher is built, so a pointer is the value it points to.  The text
    written to [std::cout] is left out; of a caught exception the
    [what()] text is kept.  [getSchedule], which only formats text, is not
    embedded. *)
Module Scheduling.

Inductive TeacherClass : Type :=
| Lecturer
| Assistant
| ExternalMentor.

Record Teacher : Type := mkTeacher {
  teacher_name : string;
  teacher_class : TeacherClass
}.

Definition getName (t : Teacher) : string := teacher_name t.

Definition canTeachLecture (t : Teacher) : bool :=
  match teacher_class t with
  | Lecturer => true
  | Assistant => false
  | ExternalMentor => false
  end.

Definition canTeachPractical (t : Teacher) : bool :=
  match teacher_class t with
  | Lecturer => true
  | Assistant => true
  | ExternalMentor => false
  end.

Definition canSuperviseCourseWork (t : Teacher) : bool :=
  match teacher_class t with
  | Lecturer => true
  | Assistant => true
  | ExternalMentor => true
  end.

Definition getType (t : Teacher) : string :=
  match teacher_class t with
  | Lecturer => "Lecturer"
  | Assistant => "Assistant"
  | ExternalMentor => "External Mentor"
  end.

Inductive SessionClass : Type :=
| LectureSession
| PracticalSession.

Record Session : Type := mkSession {
  session_class : SessionClass;
  time : string;
  room : string;
  teacher : Teacher
}.

Definition getTime (s : Session) : string := time s.
Definition getRoom (s : Session) : string := room s.
Definition getTeacher (s : Session) : Teacher := teacher s.

Definition Session_getType (s : Session) : string :=
  match session_class s with
  | LectureSession => "Lecture"
  | PracticalSession => "Practical"
  end.

Definition Session_getInfo (s : Session) : string :=
  Session_getType s +:+ " | " +:+ time s +:+ " | Room: " +:+ room s
  +:+ " | Teacher: " +:+ getName (teacher s)
  +:+ " (" +:+ getType (teacher s) +:+ ")".

(** The constructors: the [what()] of the [std::invalid_argument], or the
    session. *)
Definition newLectureSession (t r : string) (teach : Teacher) : string + Session :=
  if negb (canTeachLecture teach)
  then inl (getName teach +:+ " cannot teach lectures!")
  else inr (mkSession LectureSession t r teach).

Definition newPracticalSession (t r : string) (teach : Teacher) : string + Session :=
  if negb (canTeachPractical teach)
  then inl (getName teach +:+ " cannot teach practicals!")
  else inr (mkSession PracticalSession t r teach).

Inductive SessionFactory : Type :=
| LectureFactory
| PracticalFactory.

Definition createSession (f : SessionFactory) (t r : string) (teach : Teacher)
  : string + Session :=
  match f with
  | LectureFactory => newLectureSession t r teach
  | PracticalFactory => newPracticalSession t r teach
  end.

Inductive CourseWorkClass : Type :=
| OnlineSubmission
| GitHubSubmission
| OralDefense.

(** [location] is the [fileURL], [repoURL] or [defenseDate] of the
    subclass, empty until [submit]. *)
Record CourseWork : Type := mkCourseWork {
  coursework_class : CourseWorkClass;
  title : string;
  supervisor : Teacher;
  submitted : bool;
  location : string
}.

Definition newCourseWork (c : CourseWorkClass) (t : string) (sup : Teacher)
  : string + CourseWork :=
  if negb (canSuperviseCourseWork sup)
  then inl (getName sup +:+ " cannot supervise coursework!")
  else inr (mkCourseWork c t sup false EmptyString).

Definition submit (cw : CourseWork) : CourseWork :=
  {| coursework_class := coursework_class cw;
     title := title cw;
     supervisor := supervisor cw;
     submitted := true;
     location :=
       match coursework_class cw with
       | OnlineSubmission => "http://courses.example.com/submit/" +:+ title cw
       | GitHubSubmission => "https://github.com/student/" +:+ title cw
       | OralDefense => "2024-12-15"
       end |}.

Definition getSubmissionType (cw : CourseWork) : string :=
  match coursework_class cw with
  | OnlineSubmission => "Online Upload"
  | GitHubSubmission => "GitHub Repository"
  | OralDefense => "Oral Defense"
  end.

Definition CourseWork_getInfo (cw : CourseWork) : string :=
  title cw +:+ " | Supervisor: " +:+ getName (supervisor cw)
  +:+ " | Type: " +:+ getSubmissionType cw
  +:+ " | Status: " +:+ (if submitted cw then "Submitted" else "Not Submitted").

Inductive CourseFactory : Type :=
| ProgrammingCourseFactory
| DatabasesCourseFactory
| MathCourseFactory.

Definition createLecture (f : CourseFactory) (t r : string) (teach : Teacher)
  : string + Session :=
  match f with
  | ProgrammingCourseFactory => newLectureSession t r teach
  | DatabasesCourseFactory => newLectureSession t r teach
  | MathCourseFactory => newLectureSession t r teach
  end.

Definition createPractical (f : CourseFactory) (t r : string) (teach : Teacher)
  : string + Session :=
  match f with
  | ProgrammingCourseFactory => newPracticalSession t r teach
  | DatabasesCourseFactory => newPracticalSession t r teach
  | MathCourseFactory => newPracticalSession t r teach
  end.

Definition createCourseWork (f : CourseFactory) (t : string) (sup : Teacher)
  : string + CourseWork :=
  match f with
  | ProgrammingCourseFactory =>
      newCourseWork GitHubSubmission ("Programming Project: " +:+ t) sup
  | DatabasesCourseFactory =>
      newCourseWork OnlineSubmission ("Database Project: " +:+ t) sup
  | MathCourseFactory =>
      newCourseWork OralDefense ("Math Exam: " +:+ t) sup
  end.

Record StudentGroup : Type := mkStudentGroup {
  group_name : string;
  sessions : list Session;
  students : list string
}.

Definition newStudentGroup (n : string) : StudentGroup :=
  {| group_name := n; sessions := []; students := [] |}.

Definition addStudent (g : StudentGroup) (studentName : string) : StudentGroup :=
  {| group_name := group_name g; sessions := sessions g;
     students := (students g ++ [studentName])%list |}.

Definition addSession (g : StudentGroup) (session : Session) : StudentGroup :=
  {| group_name := group_name g; sessions := (sessions g ++ [session])%list;
     students := students g |}.

(** [timeMap[s->getTime()].push_back(s)] *)
Definition timeMap_push (m : gmap string (list Session)) (s : Session)
  : gmap string (list Session) :=
  <[getTime s := (default [] (m !! getTime s) ++ [s])%list]> m.

(** The order of the keys of a [std::map<std::string, _>]. *)
Definition key_le (p q : string * list Session) : Prop := String.le p.1 q.1.

#[global] Instance key_le_dec : RelDecision key_le.
Proof. intros p q. unfold key_le. apply _. Defined.

(** The traversal of a [std::map]: ascending in the keys. *)
Definition in_key_order (m : gmap string (list Session))
  : list (string * list Session) :=
  merge_sort key_le (map_to_list m).

(** The order of sessions by their time text. *)
Definition time_le (a b : Session) : Prop := String.le (getTime a) (getTime b).

(** One turn of the second loop of [checkConflicts]. *)
Definition conflicts_step (conflicts : list Session) (pair : string * list Session)
  : list Session :=
  if Nat.ltb 1 (length pair.2) then (conflicts ++ pair.2)%list else conflicts.

Definition checkConflicts (g : StudentGroup) : list Session :=
  let timeMap := fold_left timeMap_push (sessions g) ∅ in
  fold_left conflicts_step (in_key_order timeMap) [].

(** The time of [s] is the time of two sessions of the group, or more. *)
Definition in_conflict (g : StudentGroup) (s : Session) : Prop :=
  2 <= length (filter (fun x => getTime x = getTime s) (sessions g)).

#[global] Instance in_conflict_dec (g : StudentGroup) (s : Session) :
  Decision (in_conflict g s).
Proof. unfold in_conflict. apply _. Defined.

(** [enroll]: the group after the call, and the [what()] of the exception
    it caught, if any. *)
Definition enroll (g : StudentGroup) (factory : CourseFactory) (courseName : string)
    (lecturer assistant supervisor : Teacher) : StudentGroup * option string :=
  match createLecture factory "Mon 10:00" "Auditorium 1" lecturer with
  | inl e => (g, Some e)
  | inr lecture =>
      match createPractical factory "Wed 14:00" "Lab 3" assistant with
      | inl e => (g, Some e)
      | inr practical =>
          match createCourseWork factory courseName supervisor with
          | inl e => (g, Some e)
          | inr coursework =>
              (addSession (addSession g lecture) practical, None)
          end
      end
  end.

(** The teachers and the first group of the demonstration. *)
Definition drSinkevych : Teacher := mkTeacher "Dr. Oleh Sinkevych" Lecturer.
Definition drPetrenko : Teacher := mkTeacher "Dr. Mariia Petrenko" Assistant.
Definition mentor : Teacher := mkTeacher "Industry Expert Ivan" ExternalMentor.
Definition drKovalenko : Teacher := mkTeacher "Dr. Anna Kovalenko" Lecturer.
Definition msShevchenko : Teacher := mkTeacher "Ms. Oksana Shevchenko" Assistant.

Definition group1 : StudentGroup :=
  fst (enroll
         (fst (enroll (addStudent (addStudent (newStudentGroup "FeP-21") "Ivan Ivanov")
                                  "Maria Petrova")
                      ProgrammingCourseFactory "OOP in C++"
                      drSinkevych drPetrenko mentor))
         DatabasesCourseFactory "SQL & NoSQL" drKovalenko msShevchenko drKovalenko).

End Scheduling.

(* ===================================================================== *)
(** ** The port management program *)
(* ===================================================================== *)

(** Shallow embedding of the integer and pointer part of
    [src/lab2/cpp/main.cpp]: containers, the lists a [Port] keeps, and the
    loading of a [Ship].  A [Container*], [Ship*] or [Port*] is an address;
    the container objects never change once built, so what the addresses
    of containers point to is a function [deref].  The [double] members
    (coordinates, fuel, consumption) and the methods that compute with
    them are not part of the embedding. *)
Module Harbour.

Inductive ContainerClass : Type :=
| BasicContainer
| HeavyContainer
| RefrigeratedContainer
| LiquidContainer.

Record Container : Type := mkContainer {
  container_class : ContainerClass;
  ID : Z;
  weight : Z
}.

Definition getID (c : Container) : Z := ID c.
Definition getWeight (c : Container) : Z := weight c.

Definition type (c : Container) : string :=
  match container_class c with
  | BasicContainer => "Basic"
  | HeavyContainer => "Heavy"
  | RefrigeratedContainer => "Refrigerated"
  | LiquidContainer => "Liquid"
  end.

Definition equals (c other : Container) : bool :=
  (ID c =? ID other)%Z && (weight c =? weight other)%Z
  && String.eqb (type c) (type other).

Record Port : Type := mkPort {
  port_ID : Z;
  containers : list positive;
  history : list positive;
  current : list positive
}.

Definition newPort (id : Z) : Port :=
  {| port_ID := id; containers := []; history := []; current := [] |}.

Definition addContainer (p : Port) (c : positive) : Port :=
  {| port_ID := port_ID p; containers := (containers p ++ [c])%list;
     history := history p; current := current p |}.

(** [std::find_if] with [equals], then [erase]: the first address whose
    container equals [c], and the list without that entry. *)
Fixpoint take_equal (deref : positive -> Container) (c : Container)
    (l : list positive) : option (positive * list positive) :=
  match l with
  | [] => None
  | x :: rest =>
      if equals (deref x) c then Some (x, rest)
      else match take_equal deref c rest with
           | Some (found, rest') => Some (found, x :: rest')
           | None => None
           end
  end.

(** [getContainer]: the address found, or [None] for [nullptr], and the
    port after the call. *)
Definition getContainer (deref : positive -> Container) (p : Port) (c : positive)
  : option positive * Port :=
  match take_equal deref (deref c) (containers p) with
  | None => (None, p)
  | Some (found, rest) =>
      (Some found,
       {| port_ID := port_ID p; containers := rest;
          history := history p; current := current p |})
  end.

(** [if (find(v, s) == v.end()) v.push_back(s)] *)
Definition push_back_new (v : list positive) (s : positive) : list positive :=
  if decide (s ∈ v) then v else (v ++ [s])%list.

Definition incomingShip (p : Port) (s : positive) : Port :=
  {| port_ID := port_ID p; containers := containers p;
     history := push_back_new (history p) s;
     current := push_back_new (current p) s |}.

(** [current.erase(remove(current, s), current.end())]: every entry equal
    to [s] goes. *)
Definition outgoingShip (p : Port) (s : positive) : Port :=
  {| port_ID := port_ID p; containers := containers p;
     history := history p;
     current := filter (fun x => x <> s) (current p) |}.

Definition getContainersFromShip (p : Port) (incomingContainers : list positive)
  : Port :=
  {| port_ID := port_ID p;
     containers := (containers p ++ incomingContainers)%list;
     history := history p; current := current p |}.

Record Ship : Type := mkShip {
  ship_ID : Z;
  currentPort : option positive;
  totalWeightCapacity : Z;
  maxAll : Z;
  maxHeavy : Z;
  maxRefrig : Z;
  maxLiquid : Z;
  ship_containers : list positive
}.

(** The constructor, as far as the ship goes; it also calls
    [incomingShip] on the port it is given. *)
Definition newShip (id : Z) (port : option positive)
    (totalW all heavy refrig liquid : Z) : Ship :=
  {| ship_ID := id; currentPort := port; totalWeightCapacity := totalW;
     maxAll := all; maxHeavy := heavy; maxRefrig := refrig; maxLiquid := liquid;
     ship_containers := [] |}.

Definition with_containers (s : Ship) (l : list positive) : Ship :=
  {| ship_ID := ship_ID s; currentPort := currentPort s;
     totalWeightCapacity := totalWeightCapacity s;
     maxAll := maxAll s; maxHeavy := maxHeavy s; maxRefrig := maxRefrig s;
     maxLiquid := maxLiquid s; ship_containers := l |}.

Definition countType (deref : positive -> Container) (s : Ship) (t : string) : Z :=
  fold_left (fun count c => if String.eqb (type (deref c)) t
                            then Int.incr count else count)
            (ship_containers s) 0%Z.

(** The [int] sum of the weights on board. *)
Definition totalW (deref : positive -> Container) (s : Ship) : Z :=
  fold_left (fun total x => Int.wrap (total + getWeight (deref x)))
            (ship_containers s) 0%Z.

(** [load]: the answer, and the ship after the call. *)
Definition load (deref : positive -> Container) (s : Ship) (c : positive)
  : bool * Ship :=
  if (maxAll s <=? Int.wrap (Z.of_nat (length (ship_containers s))))%Z
  then (false, s)
  else if (totalWeightCapacity s
           <? Int.wrap (totalW deref s + getWeight (deref c)))%Z
  then (false, s)
  else if String.eqb (type (deref c)) "Heavy"
          && (maxHeavy s <=? countType deref s "Heavy")%Z
  then (false, s)
  else if String.eqb (type (deref c)) "Refrigerated"
          && (maxRefrig s <=? countType deref s "Refrigerated")%Z
  then (false, s)
  else if String.eqb (type (deref c)) "Liquid"
          && (maxLiquid s <=? countType deref s "Liquid")%Z
  then (false, s)
  else (true, with_containers s (ship_containers s ++ [c])%list).

(** [containers.erase(find(containers, c))] when [c] is found. *)
Fixpoint erase_first (c : positive) (l : list positive) : option (list positive) :=
  match l with
  | [] => None
  | x :: rest =>
      if decide (x = c) then Some rest
      else match erase_first c rest with
           | Some rest' => Some (x :: rest')
           | None => None
           end
  end.

(** [unLoad]: the answer, the ship after the call, and the ports after the
    call, the ship's current port having received the container. *)
Definition unLoad (s : Ship) (ports : gmap positive Port) (c : positive)
  : bool * Ship * gmap positive Port :=
  match erase_first c (ship_containers s) with
  | None => (false, s, ports)
  | Some rest =>
      (true, with_containers s rest,
       match currentPort s with
       | Some port => alter (fun p => addContainer p c) port ports
       | None => ports
       end)
  end.

(** What a port can come to, from its constructor, by its methods. *)
Inductive port_reachable (deref : positive -> Container) : Port -> Prop :=
| port_new (id : Z) : port_reachable deref (newPort id)
| port_addContainer (p : Port) (c : positive) :
    port_reachable deref p -> port_reachable deref (addContainer p c)
| port_getContainer (p : Port) (c : positive) :
    port_reachable deref p -> port_reachable deref (snd (getContainer deref p c))
| port_incomingShip (p : Port) (s : positive) :
    port_reachable deref p -> port_reachable deref (incomingShip p s)
| port_outgoingShip (p : Port) (s : positive) :
    port_reachable deref p -> port_reachable deref (outgoingShip p s)
| port_getContainersFromShip (p : Port) (l : list positive) :
    port_reachable deref p -> port_reachable deref (getContainersFromShip p l).

Definition with_port (s : Ship) (p : positive) : Ship :=
  {| ship_ID := ship_ID s; currentPort := Some p;
     totalWeightCapacity := totalWeightCapacity s;
     maxAll := maxAll s; maxHeavy := maxHeavy s; maxRefrig := maxRefrig s;
     maxLiquid := maxLiquid s; ship_containers := ship_containers s |}.

(** What a ship can come to, from the constructor, by its methods: [load]
    and [unLoad], whatever they answer; [getCurrentContainers], whose
    [std::sort] leaves the hold in some order ascending in the IDs; and
    [sailTo], which at most changes the current port ([reFuel] changes
    nothing that is kept here). *)
Inductive ship_reachable (deref : positive -> Container) : Ship -> Prop :=
| ship_new (id : Z) (port : option positive) (totalW all heavy refrig liquid : Z) :
    ship_reachable deref (newShip id port totalW all heavy refrig liquid)
| ship_load (s : Ship) (c : positive) :
    ship_reachable deref s -> ship_reachable deref (snd (load deref s c))
| ship_unLoad (s : Ship) (ports : gmap positive Port) (c : positive) :
    ship_reachable deref s -> ship_reachable deref (snd (fst (unLoad s ports c)))
| ship_getCurrentContainers (s : Ship) (sorted : list positive) :
    ship_reachable deref s ->
    sorted ≡ₚ ship_containers s ->
    StronglySorted (fun a b => (getID (deref a) <= getID (deref b))%Z) sorted ->
    ship_reachable deref (with_containers s sorted)
| ship_sailTo (s : Ship) (p : positive) :
    ship_reachable deref s -> ship_reachable deref (with_port s p).

(** The number of containers of a class on board, and their weight. *)
Definition on_board (deref : positive -> Container) (s : Ship) (t : string) : Z :=
  Z.of_nat (length (filter (fun c => type (deref c) = t) (ship_containers s))).

Definition weight_on_board (deref : positive -> Container) (s : Ship) : Z :=
  foldr (fun c total => (getWeight (deref c) + total)%Z) 0%Z (ship_containers s).

(** The containers and the ship of the demonstration. *)
Definition demo_deref (a : positive) : Container :=
  match a with
  | 1%positive => mkContainer BasicContainer 0 1000
  | 2%positive => mkContainer HeavyContainer 1 5000
  | 3%positive => mkContainer RefrigeratedContainer 2 2000
  | _ => mkContainer LiquidContainer 3 2500
  end.

Definition demo_ship : Ship :=
  snd (load demo_deref
         (snd (load demo_deref (newShip 0 (Some 1%positive) 20000 5 3 2 2) 1%positive))
         2%positive).

End Harbour.

(* ===================================================================== *)
(** ** Validators *)
(* ===================================================================== *)

Example integer_123 : IntegerType.validate "123" = true.
Proof. reflexivity. Qed.
Example integer_neg5 : IntegerType.validate "-5" = true.
Proof. reflexivity. Qed.
Example integer_empty : IntegerType.validate EmptyString = false.
Proof. reflexivity. Qed.
Example integer_12x : IntegerType.validate "12x" = false.
Proof. reflexivity. Qed.
Example integer_lone_sign : IntegerType.validate "-" = false.
Proof. reflexivity. Qed.
Example date_ok : DateType.validate "2024-01-15" = true.
Proof. reflexivity. Qed.
Example date_slashes : DateType.validate "2024/01/15" = false.
Proof. reflexivity. Qed.
Example date_short : DateType.validate "24-01-15" = false.
Proof. reflexivity. Qed.
Example date_no_calendar : DateType.validate "2024-13-99" = true.
Proof. reflexivity. Qed.
Example integer_leading_space : IntegerType.validate " 12" = true.
Proof. reflexivity. Qed.
Example integer_plus : IntegerType.validate "+7" = true.
Proof. reflexivity. Qed.
Example integer_int_max : IntegerType.validate "2147483647" = true.
Proof. reflexivity. Qed.
Example integer_int_max_succ : IntegerType.validate "2147483648" = false.
Proof. reflexivity. Qed.
Example integer_int_min : IntegerType.validate "-2147483648" = true.
Proof. reflexivity. Qed.
Example boolean_yes : BooleanType.validate "yes" = false.
Proof. reflexivity. Qed.

Lemma isdigit_spec (c : ascii) : CType.isdigit c = true <-> c ∈ ascii_digits.
Proof.
  unfold ascii_digits. rewrite !elem_of_cons, elem_of_nil.
  destruct c as [[] [] [] [] [] [] [] []]; vm_compute;
    split; intros Hc; first [ discriminate Hc | reflexivity | tauto | idtac ].
  all: repeat (destruct Hc as [Hc | Hc]; [ discriminate Hc | ]); try contradiction.
Qed.

Lemma digits_at_true (value : string) (positions : list nat) :
  DateType.digits_at value positions = true <->
  forall i, i ∈ positions -> CType.isdigit (Std.at_ value i) = true.
Proof.
  induction positions as [|i rest IH]; simpl.
  - split; [ intros _ i Hi; inversion Hi | reflexivity ].
  - destruct (CType.isdigit (Std.at_ value i)) eqn:Hd; simpl.
    + rewrite IH. split.
      * intros Hrest j Hj. apply elem_of_cons in Hj as [-> | Hj]; auto.
      * intros Hall j Hj. apply Hall. now apply elem_of_cons; right.
    + split; [ discriminate | ].
      intros Hall. rewrite <- Hd. apply Hall. now apply elem_of_cons; left.
Qed.

Lemma at_get (s : string) (i : nat) (c : ascii) :
  String.get i s = Some c -> Std.at_ s i = c.
Proof. unfold Std.at_. now intros ->. Qed.

Lemma get_lt_length (s : string) (i : nat) :
  i < String.length s -> exists c, String.get i s = Some c.
Proof.
  revert i. induction s as [|a s IH]; simpl; intros i Hi; [ lia | ].
  destruct i as [|i]; [ now exists a | ]. apply IH. lia.
Qed.

Lemma date_positions (i : nat) :
  i ∈ [0; 1; 2; 3; 5; 6; 8; 9] <-> i < 10 /\ i <> 4 /\ i <> 7.
Proof.
  rewrite !elem_of_cons, elem_of_nil. lia.
Qed.

(** C9. [DateType::validate] accepts a text exactly when it has length 10,
    a dash at positions 4 and 7 and an ASCII digit at each of the eight
    other positions; nothing about the calendar is checked. *)
Theorem DateType_validate_iff (value : string) :
  DateType.validate value = true <-> date_shaped value.
Proof.
  unfold DateType.validate, date_shaped.
  destruct (Nat.eqb (String.length value) 10) eqn:Hlen; cbn [negb orb].
  2: { apply Nat.eqb_neq in Hlen. split; [ discriminate | tauto ]. }
  apply Nat.eqb_eq in Hlen.
  destruct (get_lt_length value 4) as [c4 H4]; [ lia | ].
  destruct (get_lt_length value 7) as [c7 H7]; [ lia | ].
  rewrite (at_get _ _ _ H4), (at_get _ _ _ H7), H4, H7.
  destruct (Ascii.eqb_spec c4 "-") as [-> | Hc4]; cbn [negb orb].
  2: { split; [ discriminate | ]. intros (_ & [= E] & _). tauto. }
  destruct (Ascii.eqb_spec c7 "-") as [-> | Hc7]; cbn [negb orb].
  2: { split; [ discriminate | ]. intros (_ & _ & [= E] & _). tauto. }
  rewrite digits_at_true. split.
  - intros Hd. repeat split; auto.
    intros i Hi Hi4 Hi7.
    destruct (get_lt_length value i) as [c Hc]; [ lia | ].
    exists c. split; [ assumption | ].
    apply isdigit_spec. rewrite <- (at_get _ _ _ Hc).
    apply Hd, date_positions. auto.
  - intros (_ & _ & _ & Hd) i Hi.
    apply date_positions in Hi as (Hi & Hi4 & Hi7).
    destruct (Hd i Hi Hi4 Hi7) as (c & Hc & Hdig).
    rewrite (at_get _ _ _ Hc). now apply isdigit_spec.
Qed.

(* --------------------------------------------------------------------- *)
(** *** Strings *)

Lemma append_nil (s : string) : EmptyString +:+ s = s.
Proof. reflexivity. Qed.

Lemma append_cons (c : ascii) (s1 s2 : string) :
  String c s1 +:+ s2 = String c (s1 +:+ s2).
Proof. reflexivity. Qed.

Ltac str_simpl := rewrite ?append_cons, ?append_nil; simpl.

Lemma length_append (s1 s2 : string) :
  String.length (s1 +:+ s2) = String.length s1 + String.length s2.
Proof. induction s1 as [|c s1 IH]; str_simpl; [ reflexivity | now rewrite IH ]. Qed.

Lemma append_empty_r (s : string) : s +:+ EmptyString = s.
Proof. induction s as [|c s IH]; str_simpl; [ reflexivity | now rewrite IH ]. Qed.

Lemma length_zero (s : string) : String.length s = 0 -> s = EmptyString.
Proof. destruct s; [ reflexivity | discriminate ]. Qed.

(* --------------------------------------------------------------------- *)
(** *** The pieces of [strtol] *)

Lemma skip_space_spec (s : string) (n : nat) (r : string) :
  Std.skip_space s = (n, r) ->
  exists ws, s = ws +:+ r /\ String.length ws = n /\
             string_forall CType.isspace ws = true.
Proof.
  revert n. induction s as [|c s IH]; simpl; intros n Hs.
  - injection Hs as <- <-. now exists EmptyString.
  - destruct (CType.isspace c) eqn:Hc.
    + destruct (Std.skip_space s) as [m r0] eqn:Hrec.
      injection Hs as <- <-.
      destruct (IH m eq_refl) as (ws & -> & Hlen & Hall).
      exists (String c ws). str_simpl. now rewrite Hc, Hlen, Hall.
    + injection Hs as <- <-. now exists EmptyString.
Qed.

Lemma skip_space_append (ws r : string) :
  string_forall CType.isspace ws = true -> stops_at CType.isspace r ->
  Std.skip_space (ws +:+ r) = (String.length ws, r).
Proof.
  intros Hws Hr. induction ws as [|c ws IH]; str_simpl; simpl in Hws.
  - destruct r as [|c r]; simpl in *; [ reflexivity | now rewrite Hr ].
  - apply andb_true_iff in Hws as [Hc Hws]. now rewrite Hc, (IH Hws).
Qed.

Lemma read_digits_spec (s : string) :
  forall (acc : Z) (n : nat) (v : Z),
  Std.read_digits acc s = (n, v) ->
  exists ds rest, s = ds +:+ rest /\ String.length ds = n /\
                  string_forall CType.isdigit ds = true /\
                  v = (acc * 10 ^ Z.of_nat n + decimal_value ds)%Z.
Proof.
  induction s as [|c s IH]; simpl; intros acc n v Hs.
  - injection Hs as <- <-. exists EmptyString, EmptyString. simpl.
    repeat split; lia.
  - destruct (CType.isdigit c) eqn:Hc.
    + destruct (Std.read_digits (10 * acc + CType.digit_value c) s)
        as [m w] eqn:Hrec.
      injection Hs as <- <-.
      destruct (IH _ _ _ Hrec) as (ds & rest & -> & Hlen & Hall & ->).
      exists (String c ds), rest. str_simpl. rewrite Hc, Hall, Hlen.
      repeat split.
      rewrite Nat2Z.inj_succ, Z.pow_succ_r by lia. ring.
    + injection Hs as <- <-. exists EmptyString, (String c s). simpl.
      repeat split; lia.
Qed.

Lemma read_digits_all (ds : string) :
  forall acc : Z,
  string_forall CType.isdigit ds = true ->
  Std.read_digits acc ds =
    (String.length ds,
     (acc * 10 ^ Z.of_nat (String.length ds) + decimal_value ds)%Z).
Proof.
  induction ds as [|c ds IH]; simpl; intros acc Hds.
  - f_equal. lia.
  - apply andb_true_iff in Hds as [Hc Hds].
    rewrite Hc, (IH _ Hds). f_equal.
    rewrite Nat2Z.inj_succ, Z.pow_succ_r by lia. ring.
Qed.

Lemma read_sign_spec (s : string) (neg : bool) (n : nat) (r : string) :
  Std.read_sign s = (neg, n, r) ->
  (s = r /\ n = 0 /\ neg = false /\
   stops_at (fun c => Ascii.eqb c "+" || Ascii.eqb c "-") s) \/
  (s = String "+" r /\ n = 1 /\ neg = false) \/
  (s = String "-" r /\ n = 1 /\ neg = true).
Proof.
  intros Hs.
  destruct s as [|c s]; [ injection Hs as <- <- <-; left; now simpl | ].
  destruct (Ascii.eqb_spec c "-") as [-> | Hm].
  { injection Hs as <- <- <-. right; right. auto. }
  destruct (Ascii.eqb_spec c "+") as [-> | Hp].
  { injection Hs as <- <- <-. right; left. auto. }
  left.
  assert (Hgen : Std.read_sign (String c s) = (false, 0, String c s)).
  { destruct c as [[] [] [] [] [] [] [] []]; try reflexivity;
      first [ now elim Hm | now elim Hp ]. }
  rewrite Hgen in Hs.
  injection Hs as <- <- <-. repeat split. simpl.
  apply orb_false_iff. split; now apply Ascii.eqb_neq.
Qed.

Lemma digit_not_space (c : ascii) :
  CType.isdigit c = true ->
  CType.isspace c = false /\ c <> "+"%char /\ c <> "-"%char.
Proof.
  intros Hc. apply isdigit_spec in Hc. unfold ascii_digits in Hc.
  rewrite !elem_of_cons, elem_of_nil in Hc.
  repeat (destruct Hc as [-> | Hc]; [ now repeat split | ]). contradiction.
Qed.

Lemma unsigned_text (c : ascii) (s : string) :
  c <> "+"%char -> c <> "-"%char ->
  whole_decimal_integer (String c s) = nonempty_digits (String c s) /\
  integer_value (String c s) = decimal_value (String c s) /\
  Std.read_sign (String c s) = (false, 0, String c s).
Proof.
  intros Hp Hm.
  destruct c as [[] [] [] [] [] [] [] []];
    first [ now elim Hp | now elim Hm | repeat split ].
Qed.

Lemma empty_length (s : string) : Std.empty s = true <-> String.length s = 0.
Proof. destruct s; simpl; split; congruence. Qed.

(** How [read_sign] and [read_digits] go through a whole-string integer. *)
Lemma whole_decimal_integer_read (num : string) :
  whole_decimal_integer num = true ->
  exists neg nsg ds,
    Std.read_sign num = (neg, nsg, ds) /\
    nonempty_digits ds = true /\
    integer_value num = (if neg then - decimal_value ds else decimal_value ds)%Z /\
    String.length num = nsg + String.length ds /\
    stops_at CType.isspace num.
Proof.
  intros Hnum. destruct num as [|c s]; [ discriminate Hnum | ].
  destruct (Ascii.eqb_spec c "+") as [-> | Hp].
  { exists false, 1, s. now repeat split. }
  destruct (Ascii.eqb_spec c "-") as [-> | Hm].
  { exists true, 1, s. now repeat split. }
  destruct (unsigned_text c s Hp Hm) as (Hw & Hv & Hr).
  rewrite Hw in Hnum. exists false, 0, (String c s).
  repeat split; auto.
  unfold nonempty_digits in Hnum. simpl in Hnum.
  apply andb_true_iff in Hnum as [Hc _].
  simpl. now apply digit_not_space.
Qed.

Lemma nonempty_digits_iff (ds : string) :
  nonempty_digits ds = true <->
  String.length ds <> 0 /\ string_forall CType.isdigit ds = true.
Proof.
  unfold nonempty_digits. rewrite andb_true_iff, negb_true_iff.
  destruct ds; simpl; split; intros [H1 H2]; split; congruence.
Qed.

(** What a successful [stoi] says about its text and its results. *)
Lemma stoi_value_spec (s : string) (v : Z) (pos : nat) :
  Std.stoi s = Std.stoi_value v pos ->
  exists ws num rest,
    s = ws +:+ num +:+ rest /\
    string_forall CType.isspace ws = true /\
    whole_decimal_integer num = true /\
    v = integer_value num /\
    Int.in_range v = true /\
    pos = String.length ws + String.length num.
Proof.
  unfold Std.stoi, Std.strtol.
  destruct (Std.skip_space s) as [nws r] eqn:Hws.
  destruct (Std.read_sign r) as [[neg nsg] r'] eqn:Hsg.
  destruct (Std.read_digits 0 r') as [nd v0] eqn:Hds.
  destruct nd as [|nd]; [ discriminate | ].
  destruct (nws + nsg + S nd) as [|e] eqn:He; [ lia | ].
  destruct (Int.in_range (if neg then (- v0)%Z else v0)) eqn:Hrange;
    [ | discriminate ].
  intros [= <- <-].
  apply skip_space_spec in Hws as (ws & -> & Hlws & Hws).
  apply read_digits_spec in Hds as (ds & rest & -> & Hlds & Hds & Hv0).
  rewrite Z.mul_0_l, Z.add_0_l in Hv0. subst v0.
  assert (Hne : nonempty_digits ds = true).
  { apply nonempty_digits_iff. split; [ lia | assumption ]. }
  apply read_sign_spec in Hsg
    as [(-> & -> & -> & Hstop) | [(-> & -> & ->) | (-> & -> & ->)]].
  - exists ws, ds, rest. repeat split; auto; [ | | lia ].
    + destruct ds as [|c ds]; [ discriminate Hne | ].
      rewrite append_cons in Hstop. simpl in Hstop.
      apply orb_false_iff in Hstop as [Hp Hm].
      apply Ascii.eqb_neq in Hp, Hm.
      destruct (unsigned_text c ds Hp Hm) as (-> & _ & _). assumption.
    + destruct ds as [|c ds]; [ discriminate Hne | ].
      rewrite append_cons in Hstop. simpl in Hstop.
      apply orb_false_iff in Hstop as [Hp Hm].
      apply Ascii.eqb_neq in Hp, Hm.
      destruct (unsigned_text c ds Hp Hm) as (_ & -> & _). reflexivity.
  - exists ws, (String "+" ds), rest. repeat split; auto.
    simpl. lia.
  - exists ws, (String "-" ds), rest. repeat split; auto.
    simpl. lia.
Qed.

(** [stoi] on white space followed by a whole-string integer. *)
Lemma stoi_whole (ws num : string) :
  string_forall CType.isspace ws = true ->
  whole_decimal_integer num = true ->
  Std.stoi (ws +:+ num) =
    if Int.in_range (integer_value num)
    then Std.stoi_value (integer_value num) (String.length (ws +:+ num))
    else Std.out_of_range.
Proof.
  intros Hws Hnum.
  destruct (whole_decimal_integer_read num Hnum)
    as (neg & nsg & ds & Hsg & Hne & Hv & Hlen & Hstop).
  apply nonempty_digits_iff in Hne as [Hlds Hds].
  unfold Std.stoi, Std.strtol.
  rewrite (skip_space_append ws num Hws Hstop), Hsg.
  rewrite (read_digits_all ds 0%Z Hds), Z.mul_0_l, Z.add_0_l.
  destruct (String.length ds) as [|nd] eqn:Hnd; [ congruence | ].
  rewrite <- Hv, length_append, Hlen, ?Hnd.
  destruct (String.length ws + nsg + S nd) as [|e] eqn:He; [ lia | ].
  rewrite <- He. now rewrite Nat.add_assoc.
Qed.

(** C3 (as the code has it). [IntegerType::validate] accepts a text exactly
    when it is white space (possibly none) followed by a whole-string
    base-10 integer, optional sign first, whose value fits an [int]. *)
Theorem IntegerType_validate_iff (value : string) :
  IntegerType.validate value = true <->
  exists ws num,
    value = ws +:+ num /\
    string_forall CType.isspace ws = true /\
    whole_decimal_integer num = true /\
    (Int.INT_MIN <= integer_value num <= Int.INT_MAX)%Z.
Proof.
  unfold IntegerType.validate. split.
  - destruct (Std.empty value) eqn:Hempty; [ discriminate | ].
    destruct (Std.stoi value) as [v pos| |] eqn:Hstoi; try discriminate.
    intros Hpos. apply Nat.eqb_eq in Hpos.
    apply stoi_value_spec in Hstoi
      as (ws & num & rest & -> & Hws & Hnum & -> & Hrange & ->).
    rewrite !length_append in Hpos.
    assert (rest = EmptyString) as -> by (apply length_zero; lia).
    rewrite append_empty_r. exists ws, num. repeat split; auto;
      unfold Int.in_range in Hrange; apply andb_true_iff in Hrange; lia.
  - intros (ws & num & -> & Hws & Hnum & Hlo & Hhi).
    rewrite (stoi_whole ws num Hws Hnum).
    assert (Hrange : Int.in_range (integer_value num) = true).
    { unfold Int.in_range. apply andb_true_iff. lia. }
    rewrite Hrange, Nat.eqb_refl.
    destruct (Std.empty (ws +:+ num)) eqn:Hempty; [ | reflexivity ].
    apply empty_length in Hempty. rewrite length_append in Hempty.
    destruct num; [ discriminate Hnum | simpl in Hempty; lia ].
Qed.

(** C3 (as stated) fails: "9999999999" is a non-empty whole-string base-10
    integer, and [IntegerType::validate] rejects it. *)
Lemma IntegerType_validate_not_every_integer :
  whole_decimal_integer "9999999999" = true /\
  IntegerType.validate "9999999999" = false.
Proof. split; reflexivity. Qed.

(** C10. A whole-string base-10 integer whose value is outside the [int]
    range is rejected: [stoi] signals [out_of_range] and the [catch] branch
    answers false. *)
Theorem IntegerType_validate_out_of_range (value : string) :
  whole_decimal_integer value = true ->
  ~ (Int.INT_MIN <= integer_value value <= Int.INT_MAX)%Z ->
  Std.stoi value = Std.out_of_range /\ IntegerType.validate value = false.
Proof.
  intros Hnum Hout.
  pose proof (stoi_whole EmptyString value eq_refl Hnum) as Hstoi.
  rewrite append_nil in Hstoi.
  assert (Hrange : Int.in_range (integer_value value) = false).
  { unfold Int.in_range. apply andb_false_iff.
    rewrite Z.leb_gt, Z.leb_gt. lia. }
  rewrite Hrange in Hstoi. unfold IntegerType.validate.
  rewrite Hstoi. split; [ reflexivity | now destruct (Std.empty value) ].
Qed.

Lemma IntegerType_validate_out_of_range_witness :
  whole_decimal_integer "9999999999" = true /\
  ~ (Int.INT_MIN <= integer_value "9999999999" <= Int.INT_MAX)%Z /\
  Std.stoi "9999999999" = Std.out_of_range /\
  IntegerType.validate "9999999999" = false.
Proof.
  assert (Hout : ~ (Int.INT_MIN <= integer_value "9999999999" <= Int.INT_MAX)%Z).
  { vm_compute. intros [_ Hhi]. apply Hhi. reflexivity. }
  split; [ reflexivity | split; [ exact Hout | ] ].
  exact (IntegerType_validate_out_of_range "9999999999" eq_refl Hout).
Defined.

(* ===================================================================== *)
(** ** Insertion *)
(* ===================================================================== *)

Example users3_rows : length (rows users3) = 3.
Proof. reflexivity. Qed.

Example users3_sam_age :
  (getData <$> rows users3 !! 2) ≫= (.!! "age") = Some EmptyString.
Proof. vm_compute. reflexivity. Qed.

Example insert_name_omitted :
  Table.insert users3 (<["id" := "4"]> ∅)
  = (users3, Thrown (MissingRequiredValue "name")).
Proof. vm_compute. reflexivity. Qed.

Example insert_id_not_integer :
  Table.insert users3 (<["id" := "four"]> (<["name" := "Test"]> ∅))
  = (users3, Thrown (InvalidColumnValue "four" "id")).
Proof. vm_compute. reflexivity. Qed.

Example insert_id_omitted :
  Table.insert users3 (<["name" := "Test"]> ∅)
  = (users3, Thrown (MissingPrimaryKeyValue "id")).
Proof. vm_compute. reflexivity. Qed.

(** The loop depends on the value map only through the schema's names. *)
Lemma insert_columns_agree (cols : list Column)
    (values values' rowData : gmap string string) :
  (forall col, col ∈ cols ->
     values !! Column.getName col = values' !! Column.getName col) ->
  Table.insert_columns cols values rowData
  = Table.insert_columns cols values' rowData.
Proof.
  revert rowData. induction cols as [|col rest IH]; intros rowData Hagree.
  - reflexivity.
  - simpl. rewrite <- (Hagree col) by (apply elem_of_cons; now left).
    assert (Hrest : forall rd, Table.insert_columns rest values rd
                               = Table.insert_columns rest values' rd).
    { intros rd. apply IH. intros c Hc. apply Hagree, elem_of_cons. now right. }
    destruct (values !! Column.getName col) as [value|].
    + destruct (negb (Column.validate col value)); [ reflexivity | apply Hrest ].
    + destruct (Column.isPrimaryKey col); [ reflexivity | ].
      destruct (negb (Column.isNullable col)); [ reflexivity | apply Hrest ].
Qed.

(** One turn of the loop, by whether the column is accepted. *)
Lemma insert_columns_cons (col : Column) (rest : list Column)
    (values rowData : gmap string string) :
  Table.insert_columns (col :: rest) values rowData =
  if column_accepts values col
  then Table.insert_columns rest values
         (<[Column.getName col := default EmptyString (values !! Column.getName col)]>
            rowData)
  else inl (match values !! Column.getName col with
            | Some value => InvalidColumnValue value (Column.getName col)
            | None =>
                if Column.isPrimaryKey col
                then MissingPrimaryKeyValue (Column.getName col)
                else MissingRequiredValue (Column.getName col)
            end).
Proof.
  simpl. unfold column_accepts.
  destruct (values !! Column.getName col) as [value|]; simpl.
  - now destruct (Column.validate col value).
  - destruct (Column.isPrimaryKey col); [ reflexivity | ].
    now destruct (Column.isNullable col).
Qed.



(** The row a completed loop has built: under each name of the schema the
    supplied value, or the empty string; elsewhere what was there before. *)
Lemma insert_columns_row (cols : list Column)
    (values : gmap string string) :
  forall rowData row : gmap string string,
  Table.insert_columns cols values rowData = inr row ->
  forallb (column_accepts values) cols = true /\
  forall k, row !! k =
            if decide (k ∈ Column.getName <$> cols)
            then Some (default EmptyString (values !! k))
            else rowData !! k.
Proof.
  induction cols as [|c rest IH]; intros rowData row Hrow.
  - injection Hrow as <-. split; [ reflexivity | ].
    intros k. rewrite fmap_nil. now rewrite decide_False by apply not_elem_of_nil.
  - rewrite insert_columns_cons in Hrow.
    destruct (column_accepts values c) eqn:Hc; [ | discriminate ].
    apply IH in Hrow as [Hrest Hlook]. split; [ simpl; now rewrite Hc | ].
    intros k. rewrite Hlook, fmap_cons.
    destruct (decide (k ∈ Column.getName <$> rest)) as [Hk | Hk].
    + rewrite decide_True by (apply elem_of_cons; now right). reflexivity.
    + destruct (decide (k = Column.getName c)) as [-> | Hne].
      * rewrite decide_True by (apply elem_of_cons; now left).
        now rewrite lookup_insert_eq.
      * rewrite decide_False
          by (intros [? | ?]%elem_of_cons; [ congruence | tauto ]).
        now rewrite lookup_insert_ne by congruence.
Qed.

(** C1. [Table::insert] is all-or-nothing: when it throws, whatever the
    column that made it throw, the table is as it was; when it returns, the
    rows are the former rows followed by one new row, and the name and the
    schema are untouched. *)
Theorem insert_all_or_nothing (t : Table) (values : gmap string string) :
  match Table.insert t values with
  | (t', Thrown _) => t' = t /\ rows t' = rows t
  | (t', Returned) =>
      tbl_name t' = tbl_name t /\ columns t' = columns t /\
      exists row, rows t' = (rows t ++ [row])%list /\
                  length (rows t') = S (length (rows t)) /\
                  forall i, i < length (rows t) -> rows t' !! i = rows t !! i
  end.
Proof.
  unfold Table.insert.
  destruct (Table.insert_columns (columns t) values ∅) as [e | rowData].
  - split; reflexivity.
  - simpl. repeat split. exists (mkRow rowData). repeat split.
    + rewrite length_app. simpl. lia.
    + intros i Hi. now apply lookup_app_l.
Qed.




(** C8. Entries of the value map under names that are not in the schema
    play no part: [insert] does the same as on the map cut down to the
    schema's names, be it the same error or the same new row. *)
Theorem insert_ignores_unknown_names (t : Table) (values : gmap string string) :
  Table.insert t values = Table.insert t (known_values t values).
Proof.
  unfold Table.insert.
  rewrite (insert_columns_agree (columns t) values (known_values t values)).
  - reflexivity.
  - intros col Hcol. unfold known_values. apply option_eq. intros v.
    rewrite map_lookup_filter_Some. simpl. split; [ | tauto ].
    intros Hv. split; [ assumption | ].
    apply list_elem_of_fmap. eauto.
Qed.

(** In particular an entry under an unknown name can be added or changed
    without any effect on the call. *)
Lemma insert_extra_entry (t : Table) (values : gmap string string)
    (k v : string) :
  k ∉ column_names t ->
  Table.insert t (<[k := v]> values) = Table.insert t values.
Proof.
  intros Hk. unfold Table.insert.
  rewrite (insert_columns_agree (columns t) (<[k := v]> values) values).
  - reflexivity.
  - intros col Hcol. apply lookup_insert_ne. intros ->.
    apply Hk, list_elem_of_fmap. eauto.
Qed.

Example insert_extra_entry_users :
  Table.insert users0 (<["nickname" := "Al"]> alex) = Table.insert users0 alex.
Proof. vm_compute. reflexivity. Qed.

(* ===================================================================== *)
(** ** Reachable tables *)
(* ===================================================================== *)

Lemma insert_columns_same (t : Table) (values : gmap string string) :
  columns (fst (Table.insert t values)) = columns t.
Proof.
  unfold Table.insert.
  now destruct (Table.insert_columns (columns t) values ∅).
Qed.

(** The tables of a reachable registry are reachable tables. *)
Lemma db_reachable_tables (tables : gmap string Table) :
  db_reachable tables ->
  forall name t, tables !! name = Some t -> reachable t.
Proof.
  induction 1 as [ | tables n cols Hdb IH | tables n t0 values Hdb IH Ht0 ];
    intros name t Ht.
  - rewrite lookup_empty in Ht. discriminate.
  - unfold Database.createTable in Ht.
    destruct (tables !! n) eqn:Hn; simpl in Ht; [ now apply (IH name) | ].
    destruct (decide (n = name)) as [-> | Hne].
    + rewrite lookup_insert_eq in Ht. injection Ht as <-. apply reachable_new.
    + rewrite lookup_insert_ne in Ht by assumption. now apply (IH name).
  - destruct (decide (n = name)) as [-> | Hne].
    + rewrite lookup_insert_eq in Ht. injection Ht as <-.
      apply reachable_insert. now apply (IH name).
    + rewrite lookup_insert_ne in Ht by assumption. now apply (IH name).
Qed.

(** Every row of a reachable table came out of a completed [insert]: all
    columns accepted its value map, and it holds, under each name of the
    schema and under no other, the supplied value or the empty string. *)
Lemma reachable_rows (t : Table) :
  reachable t ->
  forall row, row ∈ rows t ->
  exists values : gmap string string,
    forallb (column_accepts values) (columns t) = true /\
    forall k, getData row !! k =
              if decide (k ∈ column_names t)
              then Some (default EmptyString (values !! k))
              else None.
Proof.
  induction 1 as [n c | t values Hreach IH]; intros row Hrow.
  - inversion Hrow.
  - rewrite insert_columns_same. unfold column_names.
    rewrite insert_columns_same. fold (column_names t).
    unfold Table.insert in Hrow.
    destruct (Table.insert_columns (columns t) values ∅) as [e | rowData] eqn:Hloop;
      simpl in Hrow.
    + now apply IH.
    + apply elem_of_app in Hrow as [Hrow | Hrow]; [ now apply IH | ].
      apply list_elem_of_singleton in Hrow as ->.
      apply insert_columns_row in Hloop as [Hall Hlook].
      exists values. split; [ assumption | ].
      intros k. simpl. rewrite Hlook. unfold column_names.
      destruct (decide (k ∈ Column.getName <$> columns t));
        [ reflexivity | apply lookup_empty ].
Qed.

(** The key set of every stored row is the set of the schema's names. *)
Lemma reachable_row_keys (t : Table) (row : Row) (k : string) :
  reachable t -> row ∈ rows t ->
  is_Some (getData row !! k) <-> k ∈ column_names t.
Proof.
  intros Hreach Hrow.
  destruct (reachable_rows t Hreach row Hrow) as (values & _ & Hlook).
  rewrite Hlook. destruct (decide (k ∈ column_names t)) as [Hk | Hk].
  - split; [ tauto | eauto ].
  - split; [ intros [? [=]] | tauto ].
Qed.

(** When each primary-key column is declared NOT NULL, every stored row
    has a non-empty value under each of them. *)
Lemma primary_key_present_when_not_null (t : Table) :
  reachable t ->
  (forall col, col ∈ columns t -> Column.isPrimaryKey col = true ->
               Column.isNullable col = false) ->
  forall row col, row ∈ rows t -> col ∈ columns t ->
    Column.isPrimaryKey col = true ->
    exists v, getData row !! Column.getName col = Some v /\ v <> EmptyString.
Proof.
  intros Hreach Hdecl row col Hrow Hcol Hpk.
  destruct (reachable_rows t Hreach row Hrow) as (values & Hall & Hlook).
  rewrite forallb_forall in Hall.
  assert (Hacc : column_accepts values col = true)
    by (apply Hall, list_elem_of_In, Hcol).
  unfold column_accepts in Hacc. rewrite Hlook.
  rewrite decide_True by (apply list_elem_of_fmap; eauto).
  destruct (values !! Column.getName col) as [v|] eqn:Hv; simpl.
  - exists v. split; [ reflexivity | ].
    pose proof (Hdecl col Hcol Hpk) as Hnn.
    unfold Column.validate, Column.isNullable in *. intros ->.
    simpl in Hacc. congruence.
  - rewrite Hpk in Hacc. discriminate.
Qed.

(** C4 fails on the code: a primary key declared nullable takes a supplied
    empty string, and the reachable table then stores an empty key. *)
Theorem nullable_key_stores_empty :
  Column.isPrimaryKey (mkColumn "id" TInteger true true None) = true /\
  Table.insert nullable_key (<["id" := EmptyString]> ∅)
  = ({| tbl_name := "t"; columns := columns nullable_key;
        rows := [mkRow (<["id" := EmptyString]> ∅)] |}, Returned) /\
  reachable (fst (Table.insert nullable_key (<["id" := EmptyString]> ∅))).
Proof.
  split; [ reflexivity | ]. split; [ vm_compute; reflexivity | ].
  apply reachable_insert, reachable_new.
Qed.

(** With the same schema, leaving the key out is refused. *)
Example nullable_key_omitted :
  Table.insert nullable_key ∅
  = (nullable_key, Thrown (MissingPrimaryKeyValue "id")).
Proof. vm_compute. reflexivity. Qed.

(* ===================================================================== *)
(** ** Aggregates *)
(* ===================================================================== *)

Lemma wrap_in_range (v : Z) :
  (Int.INT_MIN <= v <= Int.INT_MAX)%Z -> Int.wrap v = v.
Proof.
  unfold Int.INT_MIN, Int.INT_MAX, Int.wrap. intros Hv.
  rewrite Z.mod_small by lia. lia.
Qed.

Lemma count_step_present (column : string) (c : Z) (row : Row) :
  Table.count_step column c row
  = if present column row then Int.incr c else c.
Proof.
  unfold Table.count_step, present.
  destruct (getData row !! column) as [v|]; reflexivity.
Qed.

(** The loop of [count], as long as the counter stays an [int]. *)
Lemma count_loop (column : string) (rs : list Row) :
  forall c : Z,
  (0 <= c)%Z ->
  (c + Z.of_nat (length (List.filter (present column) rs)) <= Int.INT_MAX)%Z ->
  fold_left (Table.count_step column) rs c
  = (c + Z.of_nat (length (List.filter (present column) rs)))%Z.
Proof.
  induction rs as [|row rs IH]; intros c Hc Hmax; simpl in *.
  - lia.
  - rewrite count_step_present.
    destruct (present column row); simpl in *.
    + unfold Int.incr. rewrite wrap_in_range
        by (unfold Int.INT_MIN, Int.INT_MAX in *; lia).
      rewrite IH; lia.
    + now apply IH.
Qed.

Lemma not_present_outside_schema (t : Table) (column : string) :
  reachable t -> column ∉ column_names t ->
  List.filter (present column) (rows t) = [].
Proof.
  intros Hreach Hcol.
  assert (Hrows : forall row, row ∈ rows t -> present column row = false).
  { intros row Hrow. unfold present.
    destruct (getData row !! column) as [v|] eqn:Hv; [ | reflexivity ].
    elim Hcol. apply (reachable_row_keys t row column Hreach Hrow). eauto. }
  induction (rows t) as [|row rs IH]; [ reflexivity | ].
  simpl. rewrite (Hrows row) by (apply elem_of_cons; now left).
  apply IH. intros r Hr. apply Hrows, elem_of_cons. now right.
Qed.

(** C7. [count] is the number of stored rows with a present, non-empty
    entry under the name (that number being an [int]); for a name that is
    not in the schema it is 0, and nothing is thrown. *)
Theorem count_spec (t : Table) (column : string) :
  reachable t ->
  (present_count t column <= Int.INT_MAX)%Z ->
  Table.count t column = present_count t column /\
  (column ∉ column_names t -> Table.count t column = 0%Z).
Proof.
  intros Hreach Hmax. unfold Table.count, present_count in *.
  assert (Hcount : fold_left (Table.count_step column) (rows t) 0%Z
                   = Z.of_nat (length (List.filter (present column) (rows t)))).
  { rewrite count_loop; lia. }
  split; [ assumption | ].
  intros Hcol. rewrite Hcount.
  now rewrite (not_present_outside_schema t column Hreach Hcol).
Qed.

Lemma users3_reachable : reachable users3.
Proof. repeat apply reachable_insert. apply reachable_new. Qed.

Lemma count_spec_witness :
  reachable users3 /\
  (present_count users3 "age" <= Int.INT_MAX)%Z /\
  Table.count users3 "age" = present_count users3 "age" /\
  ("age" ∉ column_names users3 -> Table.count users3 "age" = 0%Z).
Proof.
  split; [ exact users3_reachable | ].
  split; [ vm_compute; discriminate | ].
  apply (count_spec users3 "age").
  - exact users3_reachable.
  - vm_compute. discriminate.
Defined.

Example count_age : Table.count users3 "age" = 2%Z.
Proof. vm_compute. reflexivity. Qed.

Example count_unknown : Table.count users3 "height" = 0%Z.
Proof. vm_compute. reflexivity. Qed.

Lemma isNumeric_declared (t : Table) (column : string) :
  Table.isNumeric (columns t) column = declared_integer t column.
Proof.
  unfold declared_integer, declared_type.
  induction (columns t) as [|col rest IH]; simpl; [ reflexivity | ].
  destruct (String.eqb (Column.getName col) column); simpl;
    [ reflexivity | exact IH ].
Qed.

Section AggregateProperties.

Context {double : Type} `{DoubleOps double}.

(** The loop of [sum] adds up, in row order, what [stod] makes of the
    present, non-empty values, passing over those it throws on. *)
Lemma sum_loop (column : string) (rs : list Row) :
  forall s : double,
  fold_left (Table.sum_step column) rs s
  = fold_left dadd
      (omap stod
         (omap (fun row => match getData row !! column with
                           | Some v => if Std.empty v then None else Some v
                           | None => None
                           end) rs)) s.
Proof.
  induction rs as [|row rs IH]; intros s; [ reflexivity | ].
  simpl. rewrite IH. unfold Table.sum_step.
  destruct (getData row !! column) as [v|]; [ | reflexivity ].
  destruct (Std.empty v); simpl; [ reflexivity | ].
  destruct (stod v); reflexivity.
Qed.

(** C5. When the declared type of the named column is not Integer, or no
    column has that name, [sum] is 0.0 and one warning line is written;
    nothing is thrown.  Otherwise [sum] is the sum, in row order from 0.0,
    of the numbers [stod] reads from the present, non-empty values under
    that name, the values [stod] throws on being left out; nothing is
    written. *)
Theorem sum_spec (t : Table) (column : string) :
  Table.sum t column =
  if declared_integer t column
  then (fold_left dadd (omap stod (present_values t column)) dzero, [])
  else (dzero, [Table.sum_warning column]).
Proof.
  unfold Table.sum. rewrite isNumeric_declared.
  destruct (declared_integer t column); simpl; [ | reflexivity ].
  now rewrite sum_loop.
Qed.

(** C6. [avg] is [sum] divided by [count], and the [count] in the
    denominator is the number of rows with a present, non-empty entry under
    the name (that number being an [int]); when that number is 0, [avg] is
    0.0 and nothing is divided, nor written.  With the numerator spelt out:
    for a column declared Integer it is the sum, in row order from 0.0, of
    what [stod] reads from the present, non-empty values, and 0.0 for any
    other column. *)
Theorem avg_sum_over_present_count (t : Table) (column : string) :
  (present_count t column <= Int.INT_MAX)%Z ->
  Table.count t column = present_count t column /\
  Table.avg t column =
    (if (present_count t column =? 0)%Z
     then (dzero, [])
     else (ddiv (fst (Table.sum t column)) (dof_int (present_count t column)),
           snd (Table.sum t column))) /\
  fst (Table.avg t column) =
    (if (present_count t column =? 0)%Z then dzero
     else ddiv (if declared_integer t column
                then fold_left dadd (omap stod (present_values t column)) dzero
                else dzero)
               (dof_int (present_count t column))).
Proof.
  intros Hmax.
  assert (Hcount : Table.count t column = present_count t column).
  { unfold Table.count, present_count in *. rewrite count_loop; lia. }
  split; [ exact Hcount | ].
  unfold Table.avg. rewrite Hcount.
  destruct (present_count t column =? 0)%Z; [ split; reflexivity | ].
  unfold Table.sum. rewrite isNumeric_declared.
  destruct (declared_integer t column); simpl; [ | split; reflexivity ].
  rewrite sum_loop. split; reflexivity.
Qed.

(** The demonstration: 25 and 30 are added up, and the sum is halved. *)
Example sum_age (d25 d30 : double) :
  stod "25" = Some d25 -> stod "30" = Some d30 ->
  Table.sum users3 "age" = (dadd (dadd dzero d25) d30, []).
Proof.
  intros H25 H30. unfold Table.sum. rewrite isNumeric_declared, sum_loop.
  change (declared_integer users3 "age") with true.
  change (omap _ (rows users3)) with (present_values users3 "age").
  replace (present_values users3 "age") with ["25"; "30"]
    by (vm_compute; reflexivity).
  simpl. rewrite H25, H30. reflexivity.
Qed.

Example avg_age (d25 d30 : double) :
  stod "25" = Some d25 -> stod "30" = Some d30 ->
  Table.avg users3 "age" = (ddiv (dadd (dadd dzero d25) d30) (dof_int 2), []).
Proof.
  intros H25 H30. unfold Table.avg.
  rewrite (sum_age d25 d30 H25 H30).
  replace (Table.count users3 "age") with 2%Z by (vm_compute; reflexivity).
  reflexivity.
Qed.

Example sum_name : Table.sum users3 "name"
  = (dzero, ["Warning: Attempted to SUM non-numeric column 'name'"]).
Proof. unfold Table.sum. rewrite isNumeric_declared. reflexivity. Qed.

End AggregateProperties.

Lemma avg_sum_over_present_count_witness :
  (present_count users3 "age" <= Int.INT_MAX)%Z /\
  forall (double : Type) (ops : DoubleOps double),
    Table.count users3 "age" = present_count users3 "age" /\
    Table.avg users3 "age" =
      (if (present_count users3 "age" =? 0)%Z
       then (dzero, [])
       else (ddiv (fst (Table.sum users3 "age"))
                  (dof_int (present_count users3 "age")),
             snd (Table.sum users3 "age"))).
Proof.
  assert (Hmax : (present_count users3 "age" <= Int.INT_MAX)%Z)
    by (vm_compute; discriminate).
  split; [ exact Hmax | ].
  intros double ops.
  destruct (avg_sum_over_present_count users3 "age" Hmax) as (Hcount & Havg & _).
  split; [ exact Hcount | exact Havg ].
Defined.

(* ===================================================================== *)
(** ** Insertion, in full *)
(* ===================================================================== *)

Lemma schema_row_lookup (t : Table) (values : gmap string string) (k : string) :
  schema_row t values !! k =
  if decide (k ∈ column_names t)
  then Some (default EmptyString (values !! k))
  else None.
Proof.
  unfold schema_row, known_values. rewrite lookup_union.
  rewrite map_lookup_filter, lookup_gset_to_gmap.
  destruct (decide (k ∈ column_names t)) as [Hk | Hk].
  - rewrite option_guard_True by (now apply elem_of_list_to_set).
    destruct (values !! k) as [v|]; simpl; [ | reflexivity ].
    now rewrite option_guard_True.
  - rewrite option_guard_False by (now rewrite elem_of_list_to_set).
    destruct (values !! k) as [v|]; simpl; [ | reflexivity ].
    now rewrite option_guard_False.
Qed.

(** The loop of [insert] from an empty [rowData], in one step: it throws
    for the first column that is not accepted, and else builds the row of
    the value map. *)
Lemma insert_columns_find (values : gmap string string) :
  forall (cols : list Column) (rowData : gmap string string),
  match List.find (fun col => negb (column_accepts values col)) cols with
  | Some col => Table.insert_columns cols values rowData = inl (rejection values col)
  | None => exists row, Table.insert_columns cols values rowData = inr row
  end.
Proof.
  induction cols as [|c rest IH]; intros rowData.
  - simpl. eauto.
  - rewrite insert_columns_cons. simpl List.find.
    destruct (column_accepts values c); simpl; [ apply IH | reflexivity ].
Qed.

(** [insert], in full: with [col] the first column of the schema that is
    not accepted, the table is unchanged and the error is the one of [col];
    with every column accepted, the row of the value map is appended. *)
Theorem insert_spec (t : Table) (values : gmap string string) :
  Table.insert t values =
  match List.find (fun col => negb (column_accepts values col)) (columns t) with
  | Some col => (t, Thrown (rejection values col))
  | None =>
      ({| tbl_name := tbl_name t; columns := columns t;
          rows := rows t ++ [mkRow (schema_row t values)] |}, Returned)
  end.
Proof.
  unfold Table.insert.
  pose proof (insert_columns_find values (columns t) ∅) as Hfind.
  destruct (List.find _ (columns t)) as [col|].
  - now rewrite Hfind.
  - destruct Hfind as [row Hrow]. rewrite Hrow.
    assert (Hsame : row = schema_row t values); [ | now rewrite Hsame ].
    apply map_eq. intros k. rewrite schema_row_lookup.
    apply insert_columns_row in Hrow as [_ Hlook]. rewrite Hlook.
    unfold column_names. destruct (decide _); [ reflexivity | apply lookup_empty ].
Qed.

Lemma accepted_find (t : Table) (values : gmap string string) :
  accepted t values = true <->
  List.find (fun col => negb (column_accepts values col)) (columns t) = None.
Proof.
  unfold accepted. induction (columns t) as [|c rest IH]; simpl.
  - tauto.
  - destruct (column_accepts values c); simpl; [ exact IH | ].
    split; discriminate.
Qed.

(** [insert] returns exactly when every column of the schema either has a
    supplied value that passes [Column::validate], or has none and is a
    nullable column that is no primary key. *)
Theorem insert_returns_iff (t : Table) (values : gmap string string) :
  snd (Table.insert t values) = Returned <->
  forall col, col ∈ columns t ->
    match values !! Column.getName col with
    | Some value => Column.validate col value = true
    | None => Column.isPrimaryKey col = false /\ Column.isNullable col = true
    end.
Proof.
  assert (Hacc : forall col,
            column_accepts values col = true <->
            match values !! Column.getName col with
            | Some value => Column.validate col value = true
            | None => Column.isPrimaryKey col = false /\ Column.isNullable col = true
            end).
  { intros col. unfold column_accepts.
    destruct (values !! Column.getName col); [ tauto | ].
    rewrite andb_true_iff, negb_true_iff. tauto. }
  unfold Table.insert.
  pose proof (insert_columns_find values (columns t) ∅) as Hfind.
  destruct (List.find _ (columns t)) as [col|] eqn:Hf.
  - rewrite Hfind. simpl. split; [ discriminate | ].
    intros Hall. apply find_some in Hf as [Hin Hrej].
    apply list_elem_of_In, Hall, Hacc in Hin.
    rewrite Hin in Hrej. discriminate.
  - destruct Hfind as [row ->]. simpl. split; [ | reflexivity ].
    intros _ col Hcol. apply Hacc.
    apply list_elem_of_In in Hcol.
    pose proof (find_none _ _ Hf col Hcol) as Hn.
    now apply negb_false_iff in Hn.
Qed.

(** An accepted value map: the row of the map is appended. *)
Lemma insert_accepted (t : Table) (values : gmap string string) :
  accepted t values = true ->
  Table.insert t values =
  ({| tbl_name := tbl_name t; columns := columns t;
      rows := rows t ++ [mkRow (schema_row t values)] |}, Returned).
Proof.
  intros Hacc. apply accepted_find in Hacc. unfold Table.insert.
  pose proof (insert_columns_find values (columns t) ∅) as Hfind.
  rewrite Hacc in Hfind. destruct Hfind as [row Hrow]. rewrite Hrow.
  assert (Hsame : row = schema_row t values); [ | now rewrite Hsame ].
  apply map_eq. intros k. rewrite schema_row_lookup.
  apply insert_columns_row in Hrow as [_ Hlook]. rewrite Hlook.
  unfold column_names. destruct (decide _); [ reflexivity | apply lookup_empty ].
Qed.

(** A value map that is not accepted: the table stays as it is. *)
Lemma insert_not_accepted (t : Table) (values : gmap string string) :
  accepted t values = false -> fst (Table.insert t values) = t.
Proof.
  intros Hacc. unfold Table.insert.
  pose proof (insert_columns_find values (columns t) ∅) as Hfind.
  destruct (List.find _ (columns t)) as [col|] eqn:Hf.
  - now rewrite Hfind.
  - apply accepted_find in Hf. congruence.
Qed.

(* ===================================================================== *)
(** ** What the stored rows satisfy *)
(* ===================================================================== *)

(** Every stored row has, under the name of each column of the schema, a
    value that passes [Column::validate] of that column. *)
Theorem stored_values_validate (t : Table) (row : Row) (col : Column) :
  reachable t -> row ∈ rows t -> col ∈ columns t ->
  exists v, getData row !! Column.getName col = Some v /\
            Column.validate col v = true.
Proof.
  intros Hreach Hrow Hcol.
  destruct (reachable_rows t Hreach row Hrow) as (values & Hall & Hlook).
  rewrite forallb_forall in Hall.
  assert (Hacc : column_accepts values col = true)
    by (apply Hall, list_elem_of_In, Hcol).
  unfold column_accepts in Hacc. rewrite Hlook.
  rewrite decide_True by (apply list_elem_of_fmap; eauto).
  destruct (values !! Column.getName col) as [v|]; simpl; eexists; split;
    try reflexivity; [ assumption | ].
  apply andb_true_iff in Hacc as [_ Hnull]. exact Hnull.
Qed.

Lemma stored_values_validate_witness :
  reachable users3 /\ sam_row ∈ rows users3 /\
  mkColumn "age" TInteger true false None ∈ columns users3 /\
  exists v, getData sam_row !! "age" = Some v /\
            Column.validate (mkColumn "age" TInteger true false None) v = true.
Proof.
  assert (Hreach : reachable users3)
    by (repeat apply reachable_insert; apply reachable_new).
  assert (Hrow : sam_row ∈ rows users3).
  { apply (list_elem_of_lookup_2 _ 2). vm_compute. reflexivity. }
  assert (Hcol : mkColumn "age" TInteger true false None ∈ columns users3).
  { change (columns users3) with users_columns. unfold users_columns.
    do 2 (apply elem_of_cons; right). apply elem_of_cons. now left. }
  split; [ exact Hreach | split; [ exact Hrow | split; [ exact Hcol | ] ] ].
  exact (stored_values_validate users3 sam_row _ Hreach Hrow Hcol).
Defined.

(** The keys of every stored row are exactly the names of the schema. *)
Theorem row_keys_are_schema_names (t : Table) (row : Row) :
  reachable t -> row ∈ rows t ->
  dom (getData row) = list_to_set (column_names t).
Proof.
  intros Hreach Hrow. apply set_eq. intros k.
  rewrite elem_of_dom, elem_of_list_to_set.
  now apply reachable_row_keys.
Qed.

Lemma row_keys_are_schema_names_witness :
  reachable users3 /\ sam_row ∈ rows users3 /\
  dom (getData sam_row) = list_to_set (column_names users3).
Proof.
  assert (Hreach : reachable users3)
    by (repeat apply reachable_insert; apply reachable_new).
  assert (Hrow : sam_row ∈ rows users3).
  { apply (list_elem_of_lookup_2 _ 2). vm_compute. reflexivity. }
  split; [ exact Hreach | split; [ exact Hrow | ] ].
  exact (row_keys_are_schema_names users3 sam_row Hreach Hrow).
Defined.

(** A column declared NOT NULL never stores the empty string: every stored
    row has there a non-empty value that the column's type accepts. *)
Theorem not_null_columns_nonempty (t : Table) (row : Row) (col : Column) :
  reachable t -> row ∈ rows t -> col ∈ columns t ->
  Column.isNullable col = false ->
  exists v, getData row !! Column.getName col = Some v /\
            v <> EmptyString /\
            DataType_validate (Column.getType col) v = true.
Proof.
  intros Hreach Hrow Hcol Hnn.
  destruct (reachable_rows t Hreach row Hrow) as (values & Hall & Hlook).
  rewrite forallb_forall in Hall.
  assert (Hacc : column_accepts values col = true)
    by (apply Hall, list_elem_of_In, Hcol).
  unfold column_accepts in Hacc. rewrite Hlook.
  rewrite decide_True by (apply list_elem_of_fmap; eauto).
  unfold Column.isNullable, Column.getType in *.
  destruct (values !! Column.getName col) as [v|]; simpl.
  - exists v. unfold Column.validate in Hacc.
    destruct v as [|c v]; simpl in Hacc; [ congruence | ].
    repeat split; [ discriminate | assumption ].
  - rewrite Hnn, andb_false_r in Hacc. discriminate.
Qed.

Lemma not_null_columns_nonempty_witness :
  reachable users3 /\ sam_row ∈ rows users3 /\
  mkColumn "name" TString false false None ∈ columns users3 /\
  Column.isNullable (mkColumn "name" TString false false None) = false /\
  exists v, getData sam_row !! "name" = Some v /\ v <> EmptyString /\
            DataType_validate TString v = true.
Proof.
  assert (Hreach : reachable users3)
    by (repeat apply reachable_insert; apply reachable_new).
  assert (Hrow : sam_row ∈ rows users3).
  { apply (list_elem_of_lookup_2 _ 2). vm_compute. reflexivity. }
  assert (Hcol : mkColumn "name" TString false false None ∈ columns users3).
  { change (columns users3) with users_columns. unfold users_columns.
    apply elem_of_cons; right. apply elem_of_cons. now left. }
  split; [ exact Hreach | split; [ exact Hrow | split; [ exact Hcol | ] ] ].
  split; [ reflexivity | ].
  exact (not_null_columns_nonempty users3 sam_row _ Hreach Hrow Hcol eq_refl).
Defined.

Lemma declared_integer_column (t : Table) (column : string) :
  declared_integer t column = true ->
  exists col, col ∈ columns t /\ Column.getName col = column /\
              Column.getType col = TInteger.
Proof.
  unfold declared_integer, declared_type. intros Hdecl.
  destruct (List.find _ (columns t)) as [col|] eqn:Hf; [ | discriminate ].
  apply find_some in Hf as [Hin Hname].
  exists col. repeat split.
  - now apply list_elem_of_In.
  - now apply String.eqb_eq.
  - simpl in Hdecl. now destruct (Column.getType col).
Qed.

(** The values [sum] adds up were checked on the way in: under a name
    whose declared type is Integer, every present, non-empty stored value
    passes [IntegerType::validate]. *)
Theorem summed_values_are_integers (t : Table) (column v : string) :
  reachable t -> declared_integer t column = true ->
  v ∈ present_values t column ->
  IntegerType.validate v = true.
Proof.
  intros Hreach Hdecl Hv.
  destruct (declared_integer_column t column Hdecl) as (col & Hcol & Hname & Hty).
  unfold present_values in Hv.
  apply list_elem_of_omap in Hv as (row & Hrow & Hsome).
  destruct (getData row !! column) as [w|] eqn:Hw; [ | discriminate ].
  destruct (Std.empty w) eqn:Hempty; [ discriminate | ].
  injection Hsome as ->.
  destruct (reachable_rows t Hreach row Hrow) as (values & Hall & Hlook).
  rewrite forallb_forall in Hall.
  assert (Hacc : column_accepts values col = true)
    by (apply Hall, list_elem_of_In, Hcol).
  unfold column_accepts in Hacc. rewrite Hname in Hacc.
  rewrite Hlook in Hw.
  rewrite decide_True in Hw by (rewrite <- Hname; apply list_elem_of_fmap; eauto).
  destruct (values !! column) as [w|]; simpl in Hw; injection Hw as <-;
    [ | discriminate ].
  unfold Column.validate, Column.getType in *.
  rewrite Hempty, Hty in Hacc. exact Hacc.
Qed.

Lemma summed_values_are_integers_witness :
  reachable users3 /\ declared_integer users3 "age" = true /\
  "30" ∈ present_values users3 "age" /\
  IntegerType.validate "30" = true.
Proof.
  assert (Hreach : reachable users3)
    by (repeat apply reachable_insert; apply reachable_new).
  assert (Hv : "30" ∈ present_values users3 "age").
  { replace (present_values users3 "age") with ["25"; "30"]
      by (vm_compute; reflexivity).
    apply elem_of_cons; right. apply elem_of_cons. now left. }
  split; [ exact Hreach | split; [ reflexivity | split; [ exact Hv | ] ] ].
  exact (summed_values_are_integers users3 "age" "30" Hreach eq_refl Hv).
Defined.

(* ===================================================================== *)
(** ** Insertions and the aggregates *)
(* ===================================================================== *)

Lemma present_schema_row (t : Table) (values : gmap string string)
    (column : string) :
  present column (mkRow (schema_row t values))
  = match supplied t values column with Some _ => true | None => false end.
Proof.
  unfold present, supplied. simpl. rewrite schema_row_lookup.
  destruct (decide (column ∈ column_names t)); [ | reflexivity ].
  destruct (values !! column) as [v|]; simpl; [ | reflexivity ].
  now destruct (Std.empty v).
Qed.

(** [count] after an [insert]: one more when the call returned and the
    value map has a non-empty value under that name of the schema, the
    same otherwise. *)
Theorem count_after_insert (t : Table) (values : gmap string string)
    (column : string) :
  (present_count t column < Int.INT_MAX)%Z ->
  Table.count (fst (Table.insert t values)) column =
  (Table.count t column +
   if accepted t values
   then match supplied t values column with Some _ => 1 | None => 0 end
   else 0)%Z.
Proof.
  intros Hmax. destruct (accepted t values) eqn:Hacc.
  - rewrite (insert_accepted t values Hacc). unfold Table.count, present_count in *.
    simpl. rewrite !count_loop; rewrite ?List.filter_app, ?length_app; simpl;
      rewrite ?present_schema_row;
      destruct (supplied t values column); simpl; lia.
  - rewrite (insert_not_accepted t values Hacc). lia.
Qed.

Lemma count_after_insert_witness :
  (present_count users0 "age" < Int.INT_MAX)%Z /\
  Table.count (fst (Table.insert users0 alex)) "age" =
  (Table.count users0 "age" +
   if accepted users0 alex
   then match supplied users0 alex "age" with Some _ => 1 | None => 0 end
   else 0)%Z.
Proof.
  assert (Hmax : (present_count users0 "age" < Int.INT_MAX)%Z)
    by (vm_compute; reflexivity).
  split; [ exact Hmax | ].
  exact (count_after_insert users0 alex "age" Hmax).
Defined.

(** [count] is never negative and never more than the number of rows (that
    number being an [int]). *)
Theorem count_bounds (t : Table) (column : string) :
  (Z.of_nat (length (rows t)) <= Int.INT_MAX)%Z ->
  (0 <= Table.count t column <= Z.of_nat (length (rows t)))%Z.
Proof.
  intros Hmax. unfold Table.count.
  pose proof (List.filter_length_le (present column) (rows t)) as Hle.
  rewrite count_loop; lia.
Qed.

Lemma count_bounds_witness :
  (Z.of_nat (length (rows users3)) <= Int.INT_MAX)%Z /\
  (0 <= Table.count users3 "age" <= Z.of_nat (length (rows users3)))%Z.
Proof.
  assert (Hmax : (Z.of_nat (length (rows users3)) <= Int.INT_MAX)%Z)
    by (vm_compute; discriminate).
  split; [ exact Hmax | ].
  exact (count_bounds users3 "age" Hmax).
Defined.

Section AggregatesAfterInsert.

Context {double : Type} `{DoubleOps double}.

Lemma sum_step_schema_row (t : Table) (values : gmap string string)
    (column : string) (s : double) :
  Table.sum_step column s (mkRow (schema_row t values))
  = match supplied t values column ≫= stod with
    | Some d => dadd s d
    | None => s
    end.
Proof.
  unfold Table.sum_step, supplied. simpl. rewrite schema_row_lookup.
  destruct (decide (column ∈ column_names t)); [ | reflexivity ].
  destruct (values !! column) as [v|]; simpl; [ | reflexivity ].
  now destruct (Std.empty v).
Qed.

(** [sum] after an [insert]: when the call returned and the declared type
    of the column is Integer, the number [stod] reads from the supplied
    non-empty value is added to the former sum; in every other case the
    result is the former one. *)
Theorem sum_after_insert (t : Table) (values : gmap string string)
    (column : string) :
  Table.sum (fst (Table.insert t values)) column =
  if accepted t values && declared_integer t column
  then (match supplied t values column ≫= stod with
        | Some d => dadd (fst (Table.sum t column)) d
        | None => fst (Table.sum t column)
        end, [])
  else Table.sum t column.
Proof.
  destruct (accepted t values) eqn:Hacc; simpl.
  - rewrite (insert_accepted t values Hacc). unfold Table.sum. simpl.
    rewrite isNumeric_declared.
    destruct (declared_integer t column); simpl; [ | reflexivity ].
    now rewrite fold_left_app, <- sum_step_schema_row.
  - now rewrite (insert_not_accepted t values Hacc).
Qed.

(** [avg], in full: nothing but 0.0 when [count] is 0; else the sum of the
    present values over their count for a column declared Integer, and 0.0
    over the count, with the warning of [sum], for any other column. *)
Theorem avg_in_full (t : Table) (column : string) :
  Table.avg t column =
  if (Table.count t column =? 0)%Z then (dzero, [])
  else if declared_integer t column
  then (ddiv (fold_left dadd (omap stod (present_values t column)) dzero)
             (dof_int (Table.count t column)), [])
  else (ddiv dzero (dof_int (Table.count t column)), [Table.sum_warning column]).
Proof.
  unfold Table.avg, Table.sum. rewrite isNumeric_declared.
  destruct (Table.count t column =? 0)%Z; [ reflexivity | ].
  destruct (declared_integer t column); simpl; [ | reflexivity ].
  now rewrite sum_loop.
Qed.

End AggregatesAfterInsert.

(* ===================================================================== *)
(** ** Runs of insertions *)
(* ===================================================================== *)

(** A run of [insert] calls leaves the name and the schema alone and
    appends, in the order of the calls, the rows of the accepted value
    maps; the calls that throw leave no trace. *)
Theorem insert_all_rows (batch : list (gmap string string)) :
  forall t : Table,
  insert_all t batch =
  {| tbl_name := tbl_name t; columns := columns t;
     rows := rows t ++ ((fun values => mkRow (schema_row t values))
                          <$> List.filter (accepted t) batch) |}.
Proof.
  unfold insert_all.
  induction batch as [|values batch IH]; intros t; simpl.
  - rewrite app_nil_r. now destruct t.
  - rewrite IH. destruct (accepted t values) eqn:Hacc.
    + rewrite (insert_accepted t values Hacc). simpl.
      rewrite <- app_assoc. reflexivity.
    + rewrite (insert_not_accepted t values Hacc). reflexivity.
Qed.

Example insert_all_users :
  insert_all users0 [alex; ∅; mira; <["id" := "x"]> ∅; sam] = users3.
Proof. vm_compute. reflexivity. Qed.

(** The loop of [insert] gives the same result for two value maps that each
    column either sees alike, or accepts with the same value to store. *)
Lemma insert_columns_alike (cols : list Column)
    (values values' : gmap string string) :
  (forall col, col ∈ cols ->
     values !! Column.getName col = values' !! Column.getName col \/
     (column_accepts values col = true /\ column_accepts values' col = true /\
      default EmptyString (values !! Column.getName col)
      = default EmptyString (values' !! Column.getName col))) ->
  forall rowData,
  Table.insert_columns cols values rowData
  = Table.insert_columns cols values' rowData.
Proof.
  induction cols as [|col rest IH]; intros Halike rowData; [ reflexivity | ].
  rewrite !insert_columns_cons.
  assert (Hrest : forall rd, Table.insert_columns rest values rd
                             = Table.insert_columns rest values' rd).
  { apply IH. intros c Hc. apply Halike, elem_of_cons. now right. }
  destruct (Halike col) as [Hsame | (Ha & Ha' & Hdef)];
    [ apply elem_of_cons; now left | | ].
  - unfold column_accepts. rewrite <- Hsame.
    destruct (values !! Column.getName col) as [v|]; simpl.
    + destruct (Column.validate col v); [ apply Hrest | reflexivity ].
    + destruct (negb (Column.isPrimaryKey col) && Column.isNullable col);
        [ apply Hrest | reflexivity ].
  - rewrite Ha, Ha', Hdef. apply Hrest.
Qed.

(** For a name whose columns are all nullable and no primary key, to supply
    the empty string is the same as to supply nothing. *)
Theorem empty_value_is_omitted (t : Table) (values : gmap string string)
    (column : string) :
  (forall col, col ∈ columns t -> Column.getName col = column ->
     Column.isNullable col = true /\ Column.isPrimaryKey col = false) ->
  Table.insert t (<[column := EmptyString]> values)
  = Table.insert t (delete column values).
Proof.
  intros Hnull. unfold Table.insert.
  rewrite (insert_columns_alike (columns t) (<[column := EmptyString]> values)
             (delete column values)); [ reflexivity | ].
  intros col Hcol.
  destruct (decide (Column.getName col = column)) as [Hname | Hname].
  - right. destruct (Hnull col Hcol Hname) as [Hn Hpk].
    unfold column_accepts. rewrite Hname, lookup_insert_eq, lookup_delete_eq.
    unfold Column.validate, Column.isNullable, Column.isPrimaryKey in *.
    simpl. rewrite Hn, Hpk. auto.
  - left. rewrite lookup_insert_ne, lookup_delete_ne by congruence. reflexivity.
Qed.

Lemma empty_value_is_omitted_witness :
  (forall col, col ∈ columns users0 -> Column.getName col = "age" ->
     Column.isNullable col = true /\ Column.isPrimaryKey col = false) /\
  Table.insert users0 (<["age" := EmptyString]> sam)
  = Table.insert users0 (delete "age" sam).
Proof.
  assert (Hnull : forall col, col ∈ columns users0 -> Column.getName col = "age" ->
                    Column.isNullable col = true /\ Column.isPrimaryKey col = false).
  { intros col Hcol Hname. change (columns users0) with users_columns in Hcol.
    unfold users_columns in Hcol.
    repeat (apply elem_of_cons in Hcol as [-> | Hcol];
            [ first [ discriminate Hname | now split ] | ]).
    inversion Hcol. }
  split; [ exact Hnull | ].
  exact (empty_value_is_omitted users0 sam "age" Hnull).
Defined.

(* ===================================================================== *)
(** ** The registry and the builder *)
(* ===================================================================== *)

(** [createTable] under a name that is free, then [getTable]: the new,
    empty table under that name, and under every other name what
    [getTable] answered before. *)
Theorem createTable_getTable (tables : gmap string Table) (name : string)
    (cols : list Column) :
  tables !! name = None ->
  snd (Database.createTable tables name cols) = inr (Table.new name cols) /\
  Database.getTable (fst (Database.createTable tables name cols)) name
    = inr (Table.new name cols) /\
  forall other, other <> name ->
    Database.getTable (fst (Database.createTable tables name cols)) other
    = Database.getTable tables other.
Proof.
  intros Hfree. unfold Database.createTable, Database.getTable.
  rewrite Hfree. simpl. rewrite lookup_insert_eq. repeat split.
  intros other Hne. now rewrite lookup_insert_ne by congruence.
Qed.

Lemma createTable_getTable_witness :
  (∅ : gmap string Table) !! "users" = None /\
  Database.getTable (fst (Database.createTable ∅ "users" users_columns)) "users"
    = inr users0.
Proof.
  assert (Hfree : (∅ : gmap string Table) !! "users" = None) by apply lookup_empty.
  split; [ exact Hfree | ].
  exact (proj1 (proj2 (createTable_getTable ∅ "users" users_columns Hfree))).
Defined.

(** [createTable] never drops or replaces a registered table, and it
    throws for a duplicate name exactly when the name is in use. *)
Theorem createTable_keeps_tables (tables : gmap string Table) (name : string)
    (cols : list Column) :
  tables ⊆ fst (Database.createTable tables name cols) /\
  (snd (Database.createTable tables name cols) = inl (DuplicateTableName name)
   <-> is_Some (tables !! name)).
Proof.
  unfold Database.createTable.
  destruct (tables !! name) as [t|] eqn:Hname; simpl.
  - split; [ reflexivity | ]. split; eauto.
  - split; [ now apply insert_subseteq | ].
    split; [ discriminate | intros [t Ht]; discriminate ].
Qed.

Lemma insert_name_same (t : Table) (values : gmap string string) :
  tbl_name (fst (Table.insert t values)) = tbl_name t.
Proof.
  unfold Table.insert.
  now destruct (Table.insert_columns (columns t) values ∅).
Qed.

(** In a registry the program can reach, every table is registered under
    its own name. *)
Theorem registry_key_is_name (tables : gmap string Table) (name : string)
    (t : Table) :
  db_reachable tables -> tables !! name = Some t -> tbl_name t = name.
Proof.
  intros Hdb. revert name t.
  induction Hdb as [ | tables n cols Hdb IH | tables n t0 values Hdb IH Ht0 ];
    intros name t Ht.
  - rewrite lookup_empty in Ht. discriminate.
  - unfold Database.createTable in Ht.
    destruct (tables !! n) eqn:Hn; simpl in Ht; [ now apply IH | ].
    destruct (decide (n = name)) as [-> | Hne].
    + rewrite lookup_insert_eq in Ht. now injection Ht as <-.
    + rewrite lookup_insert_ne in Ht by assumption. now apply IH.
  - destruct (decide (n = name)) as [-> | Hne].
    + rewrite lookup_insert_eq in Ht. injection Ht as <-.
      rewrite insert_name_same. now apply IH.
    + rewrite lookup_insert_ne in Ht by assumption. now apply IH.
Qed.

Lemma registry_key_is_name_witness :
  db_reachable (fst (Database.createTable ∅ "users" users_columns)) /\
  fst (Database.createTable ∅ "users" users_columns) !! "users" = Some users0 /\
  tbl_name users0 = "users".
Proof.
  assert (Hdb : db_reachable (fst (Database.createTable ∅ "users" users_columns)))
    by (apply db_reachable_createTable, db_reachable_empty).
  assert (Ht : fst (Database.createTable ∅ "users" users_columns) !! "users"
               = Some users0) by (vm_compute; reflexivity).
  split; [ exact Hdb | split; [ exact Ht | ] ].
  exact (registry_key_is_name _ "users" users0 Hdb Ht).
Defined.

Lemma add_columns_columns (cols : list Column) :
  forall b : TableBuilder,
  add_columns b cols
  = {| tb_name := tb_name b; tb_columns := tb_columns b ++ cols |}.
Proof.
  unfold add_columns.
  induction cols as [|c cols IH]; intros b; simpl.
  - rewrite app_nil_r. now destruct b.
  - rewrite IH. unfold Builder.addColumn. simpl.
    rewrite <- app_assoc. now destruct c.
Qed.

(** [TableBuilder]: [build] after a run of [addColumn] calls is
    [createTable] with the builder's name and the columns in the order they
    were added. *)
Theorem builder_build (tables : gmap string Table) (name : string)
    (cols : list Column) :
  Builder.build tables (add_columns (Builder.new name) cols)
  = Database.createTable tables name cols.
Proof.
  unfold Builder.build. now rewrite add_columns_columns.
Qed.

Example builder_users :
  snd (Builder.build ∅
         (Builder.addColumn
            (Builder.addColumn
               (Builder.addColumn (Builder.new "users") "id" TInteger false true None)
               "name" TString false false None)
            "age" TInteger true false None))
  = inr users0.
Proof. reflexivity. Qed.

(* ===================================================================== *)
(** ** The course scheduling program: conflicts and enrolment *)
(* ===================================================================== *)

Section SchedulingProperties.

Import Scheduling.

(** What the first loop of [checkConflicts] leaves under a key: the
    sessions at that time, in the order of the list, after what was there. *)
Lemma timeMap_lookup (l : list Session) :
  forall (m : gmap string (list Session)) (k : string),
  fold_left timeMap_push l m !! k =
  match m !! k, filter (fun s => getTime s = k) l with
  | None, [] => None
  | o, found => Some (default [] o ++ found)%list
  end.
Proof.
  induction l as [|s l IH]; intros m k; simpl.
  - destruct (m !! k); [ now rewrite app_nil_r | reflexivity ].
  - rewrite IH. unfold timeMap_push at 1. rewrite filter_cons.
    destruct (decide (getTime s = k)) as [<- | Hne].
    + rewrite lookup_insert_eq. simpl.
      destruct (m !! getTime s); simpl; now rewrite <- ?app_assoc.
    + rewrite lookup_insert_ne by assumption. reflexivity.
Qed.

Lemma timeMap_groups (l : list Session) (k : string) (v : list Session) :
  fold_left timeMap_push l ∅ !! k = Some v <->
  v = filter (fun s => getTime s = k) l /\ v <> [].
Proof.
  rewrite timeMap_lookup, lookup_empty.
  destruct (filter (fun s => getTime s = k) l) as [|x found]; simpl.
  - split; [ discriminate | intros [-> Hne]; contradiction ].
  - split; [ intros [= <-]; split; [ reflexivity | discriminate ] | ].
    now intros [-> _].
Qed.

Lemma conflicts_fold_elem (ps : list (string * list Session)) (s : Session) :
  forall acc : list Session,
  s ∈ fold_left conflicts_step ps acc <->
  s ∈ acc \/ exists p, p ∈ ps /\ 1 < length p.2 /\ s ∈ p.2.
Proof.
  induction ps as [|p ps IH]; intros acc; simpl.
  - split; [ now left | ]. intros [Hs | (p & Hp & _)]; [ assumption | inversion Hp ].
  - rewrite IH. unfold conflicts_step.
    destruct (Nat.ltb_spec 1 (length p.2)) as [Hlen | Hlen].
    + rewrite elem_of_app. split.
      * intros [[Hs | Hs] | (q & Hq & Hq1 & Hq2)]; [ now left | | ].
        -- right. exists p. split; [ apply elem_of_cons; now left | auto ].
        -- right. exists q. split; [ apply elem_of_cons; now right | auto ].
      * intros [Hs | (q & Hq & Hq1 & Hq2)]; [ now left; left | ].
        apply elem_of_cons in Hq as [-> | Hq]; [ now left; right | ].
        right. exists q. auto.
    + split.
      * intros [Hs | (q & Hq & Hq1 & Hq2)]; [ now left | ].
        right. exists q. split; [ apply elem_of_cons; now right | auto ].
      * intros [Hs | (q & Hq & Hq1 & Hq2)]; [ now left | ].
        apply elem_of_cons in Hq as [-> | Hq]; [ lia | ].
        right. exists q. auto.
Qed.

Lemma in_key_order_elem (m : gmap string (list Session))
    (p : string * list Session) :
  p ∈ in_key_order m <-> m !! p.1 = Some p.2.
Proof.
  unfold in_key_order. rewrite merge_sort_Permutation.
  destruct p as [k v]. apply elem_of_map_to_list.
Qed.

(** The sessions [checkConflicts] reports, as a helper for what follows. *)
Lemma checkConflicts_elem (g : StudentGroup) (s : Session) :
  s ∈ checkConflicts g <->
  s ∈ sessions g /\
  2 <= length (filter (fun x => getTime x = getTime s) (sessions g)).
Proof.
  unfold checkConflicts. rewrite conflicts_fold_elem. split.
  - intros [Hs | ([k v] & Hp & Hlen & Hin)]; [ inversion Hs | ].
    apply in_key_order_elem in Hp. simpl in Hp, Hlen, Hin.
    apply timeMap_groups in Hp as [-> _].
    apply list_elem_of_filter in Hin as [<- Hin]. split; [ assumption | lia ].
  - intros [Hin Hlen]. right.
    exists (getTime s, filter (fun x => getTime x = getTime s) (sessions g)).
    simpl. split; [ | split; [ lia | now apply list_elem_of_filter ] ].
    apply in_key_order_elem, timeMap_groups. simpl. split; [ reflexivity | ].
    intros Hnil. rewrite Hnil in Hlen. simpl in Hlen. lia.
Qed.

Lemma conflicts_fold_join (ps : list (string * list Session)) :
  forall acc : list Session,
  fold_left conflicts_step ps acc
  = (acc ++ mjoin (snd <$> filter (fun p => 1 < length p.2) ps))%list.
Proof.
  induction ps as [|p ps IH]; intros acc; simpl.
  - now rewrite app_nil_r.
  - rewrite IH, filter_cons. unfold conflicts_step.
    destruct (Nat.ltb_spec 1 (length p.2)) as [Hlen | Hlen].
    + rewrite decide_True by assumption. simpl. now rewrite <- app_assoc.
    + rewrite decide_False by lia. reflexivity.
Qed.

Lemma timeMap_push_join (m : gmap string (list Session)) (s : Session) :
  mjoin (snd <$> map_to_list (timeMap_push m s))
  ≡ₚ mjoin (snd <$> map_to_list m) ++ [s].
Proof.
  unfold timeMap_push. destruct (m !! getTime s) as [v|] eqn:Hm; simpl.
  - rewrite <- (insert_delete_eq m (getTime s) (v ++ [s])%list).
    rewrite map_to_list_insert by apply lookup_delete_eq.
    rewrite <- (map_to_list_delete m (getTime s) v Hm). simpl.
    rewrite <- !app_assoc. apply Permutation_app_head, Permutation_app_comm.
  - rewrite map_to_list_insert by assumption. simpl.
    apply Permutation_cons_append.
Qed.

Lemma timeMap_join (l : list Session) :
  forall m : gmap string (list Session),
  mjoin (snd <$> map_to_list (fold_left timeMap_push l m))
  ≡ₚ mjoin (snd <$> map_to_list m) ++ l.
Proof.
  induction l as [|s l IH]; intros m; simpl.
  - now rewrite app_nil_r.
  - rewrite IH, timeMap_push_join, <- app_assoc. reflexivity.
Qed.

Lemma filter_all (P : Session -> Prop) `{!forall s, Decision (P s)}
    (l : list Session) :
  (forall s, s ∈ l -> P s) -> filter P l = l.
Proof.
  induction l as [|x l IH]; intros Hall; [ reflexivity | ].
  rewrite filter_cons, decide_True by (apply Hall, elem_of_cons; now left).
  rewrite IH; [ reflexivity | ]. intros s Hs. apply Hall, elem_of_cons. now right.
Qed.

Lemma filter_none (P : Session -> Prop) `{!forall s, Decision (P s)}
    (l : list Session) :
  (forall s, s ∈ l -> ~ P s) -> filter P l = [].
Proof.
  induction l as [|x l IH]; intros Hnone; [ reflexivity | ].
  rewrite filter_cons, decide_False by (apply Hnone, elem_of_cons; now left).
  apply IH. intros s Hs. apply Hnone, elem_of_cons. now right.
Qed.

Lemma filter_groups (P : Session -> Prop) `{!forall s, Decision (P s)}
    (ps : list (string * list Session)) :
  (forall p s, p ∈ ps -> s ∈ p.2 -> P s <-> 1 < length p.2) ->
  filter P (mjoin (snd <$> ps))
  = mjoin (snd <$> filter (fun p => 1 < length p.2) ps).
Proof.
  induction ps as [|p ps IH]; intros Hgroups; [ reflexivity | ].
  change (mjoin (snd <$> p :: ps)) with (p.2 ++ mjoin (snd <$> ps))%list.
  rewrite filter_app, IH
    by (intros q s Hq; apply Hgroups, elem_of_cons; now right).
  rewrite (filter_cons (fun p => 1 < length p.2) p ps).
  assert (Hp : forall s, s ∈ p.2 -> P s <-> 1 < length p.2)
    by (intros s; apply Hgroups, elem_of_cons; now left).
  destruct (decide (1 < length p.2)) as [Hlen | Hlen].
  - rewrite filter_all by (intros s Hs; now apply Hp). reflexivity.
  - rewrite filter_none; [ reflexivity | ].
    intros s Hs HP. now apply Hlen, (Hp s).
Qed.

(** [checkConflicts] reports, each as often as it is in the group, exactly
    the sessions of the group whose time is the time of two sessions or
    more of the group. *)
Theorem checkConflicts_reports (g : StudentGroup) :
  checkConflicts g ≡ₚ filter (in_conflict g) (sessions g).
Proof.
  unfold checkConflicts. rewrite conflicts_fold_join. simpl.
  rewrite <- (filter_groups (in_conflict g)).
  - unfold in_key_order. rewrite merge_sort_Permutation, timeMap_join.
    rewrite map_to_list_empty. reflexivity.
  - intros [k v] s Hp Hs. apply in_key_order_elem in Hp. simpl in *.
    apply timeMap_groups in Hp as [-> _].
    apply list_elem_of_filter in Hs as [<- _]. unfold in_conflict. lia.
Qed.

Lemma same_time_count (l : list Session) :
  NoDup (getTime <$> l) <->
  forall s, s ∈ l -> length (filter (fun x => getTime x = getTime s) l) <= 1.
Proof.
  induction l as [|x l IH]; simpl.
  - split; [ intros _ s Hs; inversion Hs | intros _; constructor ].
  - rewrite NoDup_cons, IH. split.
    + intros [Hx Hl] s Hs. rewrite filter_cons.
      destruct (decide (getTime x = getTime s)) as [Heq | Hne].
      * assert (Hnone : filter (fun y => getTime y = getTime s) l = []).
        { destruct (filter (fun y => getTime y = getTime s) l) as [|y rest] eqn:Hf;
            [ reflexivity | ].
          assert (Hy : y ∈ filter (fun y => getTime y = getTime s) l)
            by (rewrite Hf; apply elem_of_cons; now left).
          apply list_elem_of_filter in Hy as [Hys Hy].
          elim Hx. rewrite Heq, <- Hys. now apply list_elem_of_fmap_2. }
        rewrite Hnone. simpl. lia.
      * apply elem_of_cons in Hs as [-> | Hs]; [ congruence | now apply Hl ].
    + intros Hall. split.
      * intros Hx. apply list_elem_of_fmap in Hx as (y & Hxy & Hy).
        specialize (Hall x ltac:(apply elem_of_cons; now left)).
        rewrite filter_cons, decide_True in Hall by reflexivity.
        simpl in Hall.
        assert (Hy' : y ∈ filter (fun z => getTime z = getTime x) l)
          by (apply list_elem_of_filter; split; [ now symmetry | assumption ]).
        destruct (filter (fun z => getTime z = getTime x) l);
          [ inversion Hy' | simpl in Hall; lia ].
      * intros s Hs.
        specialize (Hall s ltac:(apply elem_of_cons; now right)).
        rewrite filter_cons in Hall.
        destruct (decide (getTime x = getTime s)); simpl in Hall; lia.
Qed.

(** [checkConflicts] reports nothing exactly when no two sessions of the
    group are at the same time. *)
Theorem checkConflicts_nil (g : StudentGroup) :
  checkConflicts g = [] <-> NoDup (getTime <$> sessions g).
Proof.
  rewrite same_time_count. split.
  - intros Hnil s Hs.
    destruct (le_lt_dec (length (filter (fun x => getTime x = getTime s) (sessions g))) 1)
      as [Hle | Hgt]; [ assumption | ].
    assert (Hin : s ∈ checkConflicts g) by (apply checkConflicts_elem; split; [ assumption | lia ]).
    rewrite Hnil in Hin. inversion Hin.
  - intros Hall. destruct (checkConflicts g) as [|s rest] eqn:Hc; [ reflexivity | ].
    assert (Hin : s ∈ checkConflicts g) by (rewrite Hc; apply elem_of_cons; now left).
    apply checkConflicts_elem in Hin as [Hs Hlen].
    specialize (Hall s Hs). lia.
Qed.

Lemma conflicts_fold_length (ps : list (string * list Session)) :
  forall acc : list Session,
  length acc <> 1 -> length (fold_left conflicts_step ps acc) <> 1.
Proof.
  induction ps as [|p ps IH]; intros acc Hacc; simpl; [ assumption | ].
  apply IH. unfold conflicts_step.
  destruct (Nat.ltb_spec 1 (length p.2)); [ | assumption ].
  rewrite length_app. lia.
Qed.

(** [checkConflicts] never reports a single session. *)
Theorem checkConflicts_never_one (g : StudentGroup) :
  length (checkConflicts g) <> 1.
Proof.
  unfold checkConflicts. apply conflicts_fold_length. simpl. lia.
Qed.

#[local] Instance key_le_transitive : Transitive key_le.
Proof. intros p q r. unfold key_le. apply transitivity. Qed.

#[local] Instance key_le_total : Total key_le.
Proof. intros p q. unfold key_le. apply total, _. Qed.

Lemma same_time_sorted (k : string) (l : list Session) :
  (forall s, s ∈ l -> getTime s = k) -> StronglySorted time_le l.
Proof.
  induction l as [|x l IH]; intros Hall; constructor.
  - apply IH. intros s Hs. apply Hall, elem_of_cons. now right.
  - apply Forall_forall. intros y Hy. unfold time_le.
    rewrite (Hall x), (Hall y); [ reflexivity | | ];
      apply elem_of_cons; auto.
Qed.

Lemma conflicts_fold_sorted (ps : list (string * list Session)) :
  StronglySorted key_le ps ->
  (forall p s, p ∈ ps -> s ∈ p.2 -> getTime s = p.1) ->
  forall acc : list Session,
  StronglySorted time_le acc ->
  (forall a p, a ∈ acc -> p ∈ ps -> String.le (getTime a) p.1) ->
  StronglySorted time_le (fold_left conflicts_step ps acc).
Proof.
  induction ps as [|p ps IH]; intros Hsorted Hkeys acc Hacc Hbelow; simpl;
    [ assumption | ].
  apply StronglySorted_cons in Hsorted as [Hp Hsorted].
  rewrite Forall_forall in Hp.
  assert (Hkeys' : forall q s, q ∈ ps -> s ∈ q.2 -> getTime s = q.1).
  { intros q s Hq. apply Hkeys, elem_of_cons. now right. }
  assert (Hbelow' : forall a q, a ∈ acc -> q ∈ ps -> String.le (getTime a) q.1).
  { intros a q Ha Hq. apply Hbelow; [ assumption | apply elem_of_cons; now right ]. }
  apply IH; try assumption; unfold conflicts_step;
    destruct (Nat.ltb 1 (length p.2)); try assumption.
  - apply StronglySorted_app_2; [ | assumption | ].
    + intros a s Ha Hs. unfold time_le.
      rewrite (Hkeys p s); [ | apply elem_of_cons; now left | assumption ].
      apply Hbelow; [ assumption | apply elem_of_cons; now left ].
    + apply (same_time_sorted p.1). intros s Hs.
      apply Hkeys; [ apply elem_of_cons; now left | assumption ].
  - intros a q Ha Hq. apply elem_of_app in Ha as [Ha | Ha]; [ now apply Hbelow' | ].
    rewrite (Hkeys p a); [ | apply elem_of_cons; now left | assumption ].
    now apply Hp.
Qed.

(** [checkConflicts] lists what it reports by ascending time, in the order
    of the time texts as [std::string]s. *)
Theorem checkConflicts_sorted (g : StudentGroup) :
  StronglySorted time_le (checkConflicts g).
Proof.
  unfold checkConflicts. apply conflicts_fold_sorted.
  - apply StronglySorted_merge_sort; apply _.
  - intros [k v] s Hp Hs. apply in_key_order_elem in Hp. simpl in *.
    apply timeMap_groups in Hp as [-> _].
    now apply list_elem_of_filter in Hs as [Hs _].
  - constructor.
  - intros a p Ha. inversion Ha.
Qed.

Lemma createCourseWork_inr (f : CourseFactory) (t : string) (sup : Teacher) :
  exists cw, createCourseWork f t sup = inr cw /\
             supervisor cw = sup /\ submitted cw = false /\
             location cw = EmptyString.
Proof.
  destruct sup as [n []], f; eexists; repeat split.
Qed.

(** Coursework is never refused: each of the three teacher classes may
    supervise, so the constructors behind [createCourseWork] do not throw,
    and the coursework they build is not yet submitted. *)
Theorem coursework_never_refused (f : CourseFactory) (t : string) (sup : Teacher) :
  exists cw, createCourseWork f t sup = inr cw /\
             supervisor cw = sup /\ submitted cw = false /\
             title cw = match f with
                        | ProgrammingCourseFactory => "Programming Project: " +:+ t
                        | DatabasesCourseFactory => "Database Project: " +:+ t
                        | MathCourseFactory => "Math Exam: " +:+ t
                        end.
Proof.
  destruct sup as [n []], f; eexists; repeat split.
Qed.

(** [enroll], in full: with a lecturer who may lecture and an assistant who
    may teach practicals, the Monday lecture and the Wednesday practical are
    added, in this order, and nothing is caught; otherwise the group is as
    before and the refusal of the lecture, or else of the practical, is
    caught.  The supervisor never matters. *)
Theorem enroll_spec (g : StudentGroup) (f : CourseFactory) (courseName : string)
    (lecturer assistant sup : Teacher) :
  enroll g f courseName lecturer assistant sup =
  if negb (canTeachLecture lecturer)
  then (g, Some (getName lecturer +:+ " cannot teach lectures!"))
  else if negb (canTeachPractical assistant)
  then (g, Some (getName assistant +:+ " cannot teach practicals!"))
  else ({| group_name := group_name g;
           sessions := (sessions g ++
             [ mkSession LectureSession "Mon 10:00" "Auditorium 1" lecturer;
               mkSession PracticalSession "Wed 14:00" "Lab 3" assistant ])%list;
           students := students g |}, None).
Proof.
  unfold enroll.
  destruct (createCourseWork_inr f courseName sup) as (cw & Hcw & _).
  rewrite Hcw.
  assert (Hl : createLecture f "Mon 10:00" "Auditorium 1" lecturer
               = newLectureSession "Mon 10:00" "Auditorium 1" lecturer)
    by now destruct f.
  assert (Hp : createPractical f "Wed 14:00" "Lab 3" assistant
               = newPracticalSession "Wed 14:00" "Lab 3" assistant)
    by now destruct f.
  rewrite Hl, Hp. unfold newLectureSession, newPracticalSession.
  destruct (canTeachLecture lecturer); simpl; [ | reflexivity ].
  destruct (canTeachPractical assistant); simpl; [ | reflexivity ].
  unfold addSession. simpl. now rewrite <- app_assoc.
Qed.

Lemma enroll_ok (g : StudentGroup) (f : CourseFactory) (courseName : string)
    (lecturer assistant sup : Teacher) :
  canTeachLecture lecturer = true -> canTeachPractical assistant = true ->
  sessions (fst (enroll g f courseName lecturer assistant sup)) =
  (sessions g ++
    [ mkSession LectureSession "Mon 10:00" "Auditorium 1" lecturer;
      mkSession PracticalSession "Wed 14:00" "Lab 3" assistant ])%list.
Proof.
  intros Hl Hp. unfold enroll.
  destruct (createCourseWork_inr f courseName sup) as (cw & -> & _).
  destruct f; simpl; unfold newLectureSession, newPracticalSession;
    rewrite Hl, Hp; simpl; now rewrite <- app_assoc.
Qed.

(** Two enrolments that go through always collide: the times are fixed in
    [enroll], so after the second one [checkConflicts] reports both
    lectures and both practicals. *)
Theorem enroll_twice_conflicts (g : StudentGroup) (f1 f2 : CourseFactory)
    (c1 c2 : string) (l1 a1 s1 l2 a2 s2 : Teacher) :
  canTeachLecture l1 = true -> canTeachPractical a1 = true ->
  canTeachLecture l2 = true -> canTeachPractical a2 = true ->
  forall s,
  s ∈ [ mkSession LectureSession "Mon 10:00" "Auditorium 1" l1;
        mkSession PracticalSession "Wed 14:00" "Lab 3" a1;
        mkSession LectureSession "Mon 10:00" "Auditorium 1" l2;
        mkSession PracticalSession "Wed 14:00" "Lab 3" a2 ] ->
  s ∈ checkConflicts
        (fst (enroll (fst (enroll g f1 c1 l1 a1 s1)) f2 c2 l2 a2 s2)).
Proof.
  intros Hl1 Ha1 Hl2 Ha2 s Hs.
  apply checkConflicts_elem.
  rewrite (enroll_ok _ f2 c2 l2 a2 s2 Hl2 Ha2), (enroll_ok g f1 c1 l1 a1 s1 Hl1 Ha1).
  split.
  - rewrite <- app_assoc. apply elem_of_app. right. simpl.
    repeat (apply elem_of_cons in Hs as [-> | Hs]);
      [ | | | | inversion Hs ];
      repeat first [ apply elem_of_cons; now left | apply elem_of_cons; right ].
  - rewrite <- app_assoc, filter_app, length_app. simpl app.
    repeat (apply elem_of_cons in Hs as [-> | Hs]); [ | | | | inversion Hs ];
      match goal with
      | |- _ <= _ + length ?found =>
          replace (length found) with 2 by (vm_compute; reflexivity)
      end; lia.
Qed.

End SchedulingProperties.

Example group1_conflicts :
  (Scheduling.getTime <$> Scheduling.checkConflicts Scheduling.group1)
  = ["Mon 10:00"; "Mon 10:00"; "Wed 14:00"; "Wed 14:00"]
  /\ ((fun s => Scheduling.getName (Scheduling.getTeacher s))
        <$> Scheduling.checkConflicts Scheduling.group1)
     = ["Dr. Oleh Sinkevych"; "Dr. Anna Kovalenko";
        "Dr. Mariia Petrenko"; "Ms. Oksana Shevchenko"].
Proof. split; vm_compute; reflexivity. Qed.

Lemma enroll_twice_conflicts_witness :
  Scheduling.canTeachLecture Scheduling.drSinkevych = true /\
  Scheduling.canTeachPractical Scheduling.drPetrenko = true /\
  Scheduling.canTeachLecture Scheduling.drKovalenko = true /\
  Scheduling.canTeachPractical Scheduling.msShevchenko = true /\
  Scheduling.mkSession Scheduling.PracticalSession "Wed 14:00" "Lab 3"
    Scheduling.msShevchenko
  ∈ Scheduling.checkConflicts Scheduling.group1.
Proof.
  repeat (split; [ reflexivity | ]).
  apply (enroll_twice_conflicts _ Scheduling.ProgrammingCourseFactory
           Scheduling.DatabasesCourseFactory "OOP in C++" "SQL & NoSQL"
           Scheduling.drSinkevych Scheduling.drPetrenko Scheduling.mentor
           Scheduling.drKovalenko Scheduling.msShevchenko Scheduling.drKovalenko
           eq_refl eq_refl eq_refl eq_refl).
  do 3 (apply elem_of_cons; right). apply elem_of_cons. now left.
Defined.

(* ===================================================================== *)
(** ** The port management program: ports and holds *)
(* ===================================================================== *)

Section HarbourProperties.

Import Harbour.

Variable deref : positive -> Container.

Lemma push_back_new_NoDup (v : list positive) (s : positive) :
  NoDup v -> NoDup (push_back_new v s).
Proof.
  intros Hv. unfold push_back_new. destruct (decide (s ∈ v)); [ assumption | ].
  apply NoDup_app. repeat split; [ assumption | | apply NoDup_singleton ].
  intros x Hx Hxs. apply list_elem_of_singleton in Hxs as ->. contradiction.
Qed.

Lemma push_back_new_elem (v : list positive) (s x : positive) :
  x ∈ push_back_new v s <-> x ∈ v \/ x = s.
Proof.
  unfold push_back_new. destruct (decide (s ∈ v)) as [Hs | Hs].
  - split; [ now left | intros [Hx | ->]; assumption ].
  - rewrite elem_of_app, list_elem_of_singleton. reflexivity.
Qed.

(** A port never lists a ship twice, as present or as past visitor, and
    every ship present is among the past visitors. *)
Theorem port_ship_lists (p : Port) :
  port_reachable deref p ->
  NoDup (current p) /\ NoDup (history p) /\ current p ⊆ history p.
Proof.
  induction 1 as [ id | p c Hp IH | p c Hp IH | p s Hp IH | p s Hp IH | p l Hp IH ];
    simpl.
  - repeat split; [ constructor | constructor | ]. intros x Hx. inversion Hx.
  - exact IH.
  - unfold getContainer.
    destruct (take_equal deref (deref c) (containers p)) as [[found rest]|];
      exact IH.
  - destruct IH as (Hc & Hh & Hsub).
    repeat split; try now apply push_back_new_NoDup.
    intros x Hx. apply push_back_new_elem. apply push_back_new_elem in Hx.
    destruct Hx as [Hx | ->]; [ left; now apply Hsub | now right ].
  - destruct IH as (Hc & Hh & Hsub).
    repeat split; [ now apply NoDup_filter | assumption | ].
    intros x Hx. apply list_elem_of_filter in Hx as [_ Hx]. now apply Hsub.
  - exact IH.
Qed.

Lemma take_equal_spec (c : Container) (l : list positive) :
  match take_equal deref c l with
  | Some (found, rest) =>
      exists before after,
        l = (before ++ found :: after)%list /\ rest = (before ++ after)%list /\
        equals (deref found) c = true /\
        forall x, x ∈ before -> equals (deref x) c = false
  | None => forall x, x ∈ l -> equals (deref x) c = false
  end.
Proof.
  induction l as [|x l IH]; simpl.
  - intros x Hx. inversion Hx.
  - destruct (equals (deref x) c) eqn:Hx.
    + exists [], l. repeat split; [ assumption | ]. intros y Hy. inversion Hy.
    + destruct (take_equal deref c l) as [[found rest]|].
      * destruct IH as (before & after & -> & -> & Hfound & Hbefore).
        exists (x :: before), after. repeat split; [ assumption | ].
        intros y Hy. apply elem_of_cons in Hy as [-> | Hy]; auto.
      * intros y Hy. apply elem_of_cons in Hy as [-> | Hy]; auto.
Qed.

(** [getContainer] takes out the first container of the port that
    [equals] the one asked for and hands back its address; with no such
    container it answers [nullptr] and the port is as before.  The lists
    of ships are never touched. *)
Theorem getContainer_spec (p : Port) (c : positive) :
  match getContainer deref p c with
  | (Some found, p') =>
      exists before after,
        containers p = (before ++ found :: after)%list /\
        containers p' = (before ++ after)%list /\
        equals (deref found) (deref c) = true /\
        (forall x, x ∈ before -> equals (deref x) (deref c) = false) /\
        history p' = history p /\ current p' = current p /\ port_ID p' = port_ID p
  | (None, p') =>
      p' = p /\ forall x, x ∈ containers p -> equals (deref x) (deref c) = false
  end.
Proof.
  unfold getContainer.
  pose proof (take_equal_spec (deref c) (containers p)) as Hspec.
  destruct (take_equal deref (deref c) (containers p)) as [[found rest]|].
  - destruct Hspec as (before & after & Hl & -> & Hfound & Hbefore).
    exists before, after. simpl. repeat split; assumption.
  - split; [ reflexivity | assumption ].
Qed.

Lemma equals_refl (c : Container) : equals c c = true.
Proof.
  unfold equals. now rewrite !Z.eqb_refl, String.eqb_refl.
Qed.

Lemma take_equal_last (c : positive) (l : list positive) :
  (forall x, x ∈ l -> equals (deref x) (deref c) = false) ->
  take_equal deref (deref c) (l ++ [c]) = Some (c, l).
Proof.
  induction l as [|x l IH]; intros Hl; simpl.
  - now rewrite equals_refl.
  - rewrite (Hl x) by (apply elem_of_cons; now left).
    rewrite IH; [ reflexivity | ].
    intros y Hy. apply Hl, elem_of_cons. now right.
Qed.

(** [addContainer] then [getContainer]: when no container of the port
    equals the new one, it is the one handed back, and the port is as it
    was before the two calls. *)
Theorem addContainer_getContainer (p : Port) (c : positive) :
  (forall x, x ∈ containers p -> equals (deref x) (deref c) = false) ->
  getContainer deref (addContainer p c) c = (Some c, p).
Proof.
  intros Hp. unfold getContainer, addContainer. simpl.
  rewrite (take_equal_last c (containers p) Hp). now destruct p.
Qed.

End HarbourProperties.

Lemma port_ship_lists_witness :
  Harbour.port_reachable Harbour.demo_deref
    (Harbour.outgoingShip
       (Harbour.incomingShip (Harbour.incomingShip (Harbour.newPort 0) 7) 9) 7) /\
  NoDup [9%positive] /\ NoDup [7%positive; 9%positive] /\
  [9%positive] ⊆ [7%positive; 9%positive].
Proof.
  assert (Hp : Harbour.port_reachable Harbour.demo_deref
                 (Harbour.outgoingShip
                    (Harbour.incomingShip (Harbour.incomingShip (Harbour.newPort 0) 7) 9)
                    7)).
  { apply Harbour.port_outgoingShip. do 2 apply Harbour.port_incomingShip.
    apply Harbour.port_new. }
  split; [ exact Hp | ].
  exact (port_ship_lists Harbour.demo_deref _ Hp).
Defined.

Lemma addContainer_getContainer_witness :
  (forall x, x ∈ Harbour.containers (Harbour.addContainer (Harbour.newPort 0) 1) ->
     Harbour.equals (Harbour.demo_deref x) (Harbour.demo_deref 2) = false) /\
  Harbour.getContainer Harbour.demo_deref
    (Harbour.addContainer (Harbour.addContainer (Harbour.newPort 0) 1) 2) 2
  = (Some 2%positive, Harbour.addContainer (Harbour.newPort 0) 1).
Proof.
  assert (Hp : forall x,
             x ∈ Harbour.containers (Harbour.addContainer (Harbour.newPort 0) 1) ->
             Harbour.equals (Harbour.demo_deref x) (Harbour.demo_deref 2) = false).
  { intros x Hx. simpl in Hx. apply list_elem_of_singleton in Hx as ->. reflexivity. }
  split; [ exact Hp | ].
  exact (addContainer_getContainer Harbour.demo_deref _ 2%positive Hp).
Defined.

Section HoldProperties.

Import Harbour.

Variable deref : positive -> Container.

Lemma erase_first_spec (c : positive) (l : list positive) :
  match erase_first c l with
  | Some rest =>
      exists before after,
        l = (before ++ c :: after)%list /\ rest = (before ++ after)%list /\
        (c ∉ before)
  | None => c ∉ l
  end.
Proof.
  induction l as [|x l IH]; simpl.
  - apply not_elem_of_nil.
  - destruct (decide (x = c)) as [-> | Hne].
    + exists [], l. repeat split. apply not_elem_of_nil.
    + destruct (erase_first c l) as [rest|].
      * destruct IH as (before & after & -> & -> & Hbefore).
        exists (x :: before), after. repeat split.
        intros [? | ?]%elem_of_cons; [ congruence | contradiction ].
      * intros [? | ?]%elem_of_cons; [ congruence | contradiction ].
Qed.

(** [unLoad] of a container that is not on board answers false and changes
    nothing; otherwise the first entry of it leaves the hold, and the
    current port of the ship, if it has one, gets it at the end of its
    list, the other ports staying as they are. *)
Theorem unLoad_spec (s : Ship) (ports : gmap positive Port) (c : positive) :
  ((c ∉ ship_containers s) /\ unLoad s ports c = (false, s, ports)) \/
  (exists before after,
     ship_containers s = (before ++ c :: after)%list /\ (c ∉ before) /\
     unLoad s ports c =
     (true, with_containers s (before ++ after)%list,
      match currentPort s with
      | Some port => alter (fun p => addContainer p c) port ports
      | None => ports
      end)).
Proof.
  unfold unLoad. pose proof (erase_first_spec c (ship_containers s)) as Hspec.
  destruct (erase_first c (ship_containers s)) as [rest|].
  - right. destruct Hspec as (before & after & Hl & -> & Hbefore).
    exists before, after. auto.
  - left. auto.
Qed.

Lemma countType_on_board (s : Ship) (t : string) :
  (Z.of_nat (length (ship_containers s)) <= Int.INT_MAX)%Z ->
  countType deref s t = on_board deref s t.
Proof.
  unfold countType, on_board.
  assert (Hgen : forall l count,
            (0 <= count)%Z ->
            (count + Z.of_nat (length l) <= Int.INT_MAX)%Z ->
            fold_left (fun count c => if String.eqb (type (deref c)) t
                                      then Int.incr count else count) l count
            = (count + Z.of_nat (length (filter (fun c => type (deref c) = t) l)))%Z).
  { induction l as [|x l IH]; intros count Hc Hmax; simpl in *; [ lia | ].
    rewrite filter_cons.
    pose proof (length_filter (fun c => type (deref c) = t) l) as Hle.
    destruct (String.eqb_spec (type (deref x)) t) as [Heq | Hne].
    - rewrite decide_True by assumption. unfold Int.incr.
      rewrite wrap_in_range by (unfold Int.INT_MIN, Int.INT_MAX in *; lia).
      rewrite IH by lia. simpl. lia.
    - rewrite decide_False by assumption. apply IH; lia. }
  intros Hmax. rewrite Hgen; lia.
Qed.

Lemma on_board_app (s : Ship) (c : positive) (t : string) :
  on_board deref (with_containers s (ship_containers s ++ [c])%list) t
  = (on_board deref s t + if decide (type (deref c) = t) then 1 else 0)%Z.
Proof.
  unfold on_board. simpl. rewrite filter_app, length_app, filter_cons, filter_nil.
  destruct (decide (type (deref c) = t)); simpl; lia.
Qed.

(** What [load] does: nothing, or the container goes to the end of the
    hold, every test of [load] having passed. *)
Lemma load_cases (s : Ship) (c : positive) :
  load deref s c = (false, s) \/
  (load deref s c = (true, with_containers s (ship_containers s ++ [c])%list) /\
   (Int.wrap (Z.of_nat (length (ship_containers s))) < maxAll s)%Z /\
   (Int.wrap (totalW deref s + getWeight (deref c)) <= totalWeightCapacity s)%Z /\
   (type (deref c) = "Heavy" -> (countType deref s "Heavy" < maxHeavy s)%Z) /\
   (type (deref c) = "Refrigerated" ->
      (countType deref s "Refrigerated" < maxRefrig s)%Z) /\
   (type (deref c) = "Liquid" -> (countType deref s "Liquid" < maxLiquid s)%Z)).
Proof.
  unfold load.
  destruct (Z.leb_spec (maxAll s) (Int.wrap (Z.of_nat (length (ship_containers s)))))
    as [Hall | Hall]; [ now left | ].
  destruct (Z.ltb_spec (totalWeightCapacity s)
              (Int.wrap (totalW deref s + getWeight (deref c))))
    as [Hw | Hw]; [ now left | ].
  destruct (String.eqb_spec (type (deref c)) "Heavy") as [Hh | Hh];
    destruct (Z.leb_spec (maxHeavy s) (countType deref s "Heavy")) as [Hh' | Hh'];
    simpl; try (now left);
    destruct (String.eqb_spec (type (deref c)) "Refrigerated") as [Hr | Hr];
    destruct (Z.leb_spec (maxRefrig s) (countType deref s "Refrigerated"))
      as [Hr' | Hr'];
    simpl; try (now left);
    destruct (String.eqb_spec (type (deref c)) "Liquid") as [Hl | Hl];
    destruct (Z.leb_spec (maxLiquid s) (countType deref s "Liquid")) as [Hl' | Hl'];
    simpl; try (now left);
    right; repeat split; auto; intros; congruence.
Qed.

(** The hold keeps within the limits of the ship: never more containers
    than [maxAll], nor more of type "Heavy", "Refrigerated" or "Liquid"
    than [maxHeavy], [maxRefrig] or [maxLiquid] (a limit below 0 counting
    as 0). *)
Theorem hold_within_limits (s : Ship) :
  ship_reachable deref s ->
  (maxAll s <= Int.INT_MAX)%Z ->
  (Z.of_nat (length (ship_containers s)) <= Z.max 0 (maxAll s))%Z /\
  (on_board deref s "Heavy" <= Z.max 0 (maxHeavy s))%Z /\
  (on_board deref s "Refrigerated" <= Z.max 0 (maxRefrig s))%Z /\
  (on_board deref s "Liquid" <= Z.max 0 (maxLiquid s))%Z.
Proof.
  induction 1 as [ id port cap all heavy refrig liquid
                 | s c Hs IH | s ports c Hs IH
                 | s sorted Hs IH Hperm Hsorted | s p Hs IH ]; intros Hint;
    [ | | | unfold on_board in *; simpl in *; rewrite !Hperm; now apply IH
      | now apply IH ].
  - unfold on_board. simpl. lia.
  - destruct (load_cases s c) as [Hload | (Hload & Hall & _ & Hh & Hr & Hl)];
      rewrite Hload in *; simpl in *; [ now apply IH | ].
    destruct (IH Hint) as (IHall & IHh & IHr & IHl).
    assert (Hlen : (Z.of_nat (length (ship_containers s)) <= Int.INT_MAX)%Z)
      by (unfold Int.INT_MAX in *; lia).
    rewrite !(countType_on_board s _ Hlen) in *.
    rewrite wrap_in_range in Hall by (unfold Int.INT_MIN, Int.INT_MAX in *; lia).
    rewrite !on_board_app, length_app. simpl.
    repeat split; [ lia | | | ];
      destruct (decide _) as [Ht | Ht];
      try specialize (Hh Ht); try specialize (Hr Ht); try specialize (Hl Ht); lia.
  - assert (Hsame : maxAll (snd (fst (unLoad s ports c))) = maxAll s).
    { unfold unLoad. now destruct (erase_first c (ship_containers s)). }
    rewrite Hsame in Hint. specialize (IH Hint).
    unfold unLoad. pose proof (erase_first_spec c (ship_containers s)) as Hspec.
    destruct (erase_first c (ship_containers s)) as [rest|]; simpl; [ | exact IH ].
    destruct Hspec as (before & after & Hl & -> & _).
    unfold on_board in *. simpl. rewrite Hl in IH.
    rewrite !filter_app, !filter_cons, !length_app in IH.
    rewrite !filter_app, !length_app.
    destruct IH as (IHall & IHh & IHr & IHl).
    repeat split; [ simpl in IHall; lia | | | ];
      [ clear IHr IHl | clear IHh IHl | clear IHh IHr ];
      case_decide; simpl in *; lia.
Qed.

Lemma weight_on_board_app (s : Ship) (l1 l2 : list positive) :
  weight_on_board deref (with_containers s (l1 ++ l2)%list)
  = (weight_on_board deref (with_containers s l1)
     + weight_on_board deref (with_containers s l2))%Z.
Proof.
  unfold weight_on_board. simpl.
  induction l1 as [|x l1 IH]; simpl; [ reflexivity | ]. rewrite IH. lia.
Qed.

Lemma weight_on_board_Permutation (s : Ship) (l1 l2 : list positive) :
  l1 ≡ₚ l2 ->
  weight_on_board deref (with_containers s l1)
  = weight_on_board deref (with_containers s l2).
Proof.
  unfold weight_on_board. simpl.
  induction 1 as [ | x l1 l2 Hperm IH | x y l | l1 l2 l3 H12 IH12 H23 IH23 ];
    simpl; lia.
Qed.

Lemma weight_on_board_nonneg (s : Ship) :
  (forall a, 0 <= getWeight (deref a))%Z -> (0 <= weight_on_board deref s)%Z.
Proof.
  intros Hw. unfold weight_on_board.
  induction (ship_containers s) as [|x l IH]; simpl; [ lia | ].
  specialize (Hw x). lia.
Qed.

(** The [int] sum of [load] is the weight on board, as long as no weight is
    negative and the weight on board is an [int]. *)
Lemma totalW_weight_on_board (s : Ship) :
  (forall a, 0 <= getWeight (deref a))%Z ->
  (weight_on_board deref s <= Int.INT_MAX)%Z ->
  totalW deref s = weight_on_board deref s.
Proof.
  intros Hw. unfold totalW, weight_on_board.
  assert (Hgen : forall l total,
            (0 <= total)%Z ->
            (total + foldr (fun c t => getWeight (deref c) + t) 0 l <= Int.INT_MAX)%Z ->
            fold_left (fun total x => Int.wrap (total + getWeight (deref x))) l total
            = (total + foldr (fun c t => getWeight (deref c) + t) 0 l)%Z).
  { induction l as [|x l IH]; intros total Ht Hmax; simpl in *; [ lia | ].
    pose proof (Hw x) as Hx.
    assert (Hl : (0 <= foldr (fun c t => getWeight (deref c) + t) 0 l)%Z).
    { clear -Hw. induction l as [|y l IH]; simpl; [ lia | ].
      specialize (Hw y). lia. }
    rewrite wrap_in_range by (unfold Int.INT_MIN, Int.INT_MAX in *; lia).
    rewrite IH; lia. }
  intros Hmax. rewrite Hgen; lia.
Qed.

(** The weight on board never exceeds [totalWeightCapacity] (a capacity
    below 0 counting as 0), provided no container has a negative weight
    and the capacity plus any one weight is still an [int], so that the
    sum [load] tests does not overflow. *)
Theorem weight_within_capacity (s : Ship) :
  ship_reachable deref s ->
  (forall a, 0 <= getWeight (deref a) /\
             Z.max 0 (totalWeightCapacity s) + getWeight (deref a) <= Int.INT_MAX)%Z ->
  (weight_on_board deref s <= Z.max 0 (totalWeightCapacity s))%Z.
Proof.
  induction 1 as [ id port cap all heavy refrig liquid
                 | s c Hs IH | s ports c Hs IH
                 | s sorted Hs IH Hperm Hsorted | s p Hs IH ]; intros Hw;
    [ | | | rewrite (weight_on_board_Permutation _ _ (ship_containers s) Hperm);
            now apply IH
      | now apply IH ].
  - unfold weight_on_board. simpl. lia.
  - assert (Hnn : forall a, (0 <= getWeight (deref a))%Z) by (intros a; apply Hw).
    destruct (load_cases s c) as [Hload | (Hload & _ & Hcap & _)];
      rewrite Hload in *; simpl in *; [ now apply IH | ].
    specialize (IH Hw). destruct (Hw c) as [Hc Hmax].
    rewrite totalW_weight_on_board in Hcap by (assumption || lia).
    pose proof (weight_on_board_nonneg s Hnn) as Hpos.
    rewrite wrap_in_range in Hcap by (unfold Int.INT_MIN, Int.INT_MAX in *; lia).
    rewrite weight_on_board_app.
    assert (Hsame : weight_on_board deref (with_containers s (ship_containers s))
                    = weight_on_board deref s) by reflexivity.
    rewrite Hsame. unfold weight_on_board at 2. simpl. lia.
  - assert (Hnn : forall a, (0 <= getWeight (deref a))%Z) by (intros a; apply Hw).
    assert (Hsame : totalWeightCapacity (snd (fst (unLoad s ports c)))
                    = totalWeightCapacity s).
    { unfold unLoad. now destruct (erase_first c (ship_containers s)). }
    rewrite Hsame in *. specialize (IH Hw).
    unfold unLoad. pose proof (erase_first_spec c (ship_containers s)) as Hspec.
    destruct (erase_first c (ship_containers s)) as [rest|]; simpl; [ | exact IH ].
    destruct Hspec as (before & after & Hl & -> & _).
    assert (Hs' : weight_on_board deref s
                  = weight_on_board deref (with_containers s (before ++ c :: after)%list))
      by (unfold weight_on_board; simpl; now rewrite Hl).
    rewrite Hs' in IH. rewrite weight_on_board_app in *.
    unfold weight_on_board at 2 in IH. simpl in IH.
    unfold weight_on_board at 2. simpl.
    specialize (Hnn c). lia.
Qed.

End HoldProperties.

Lemma hold_within_limits_witness :
  Harbour.ship_reachable Harbour.demo_deref Harbour.demo_ship /\
  (Harbour.maxAll Harbour.demo_ship <= Int.INT_MAX)%Z /\
  (Z.of_nat (length (Harbour.ship_containers Harbour.demo_ship))
   <= Z.max 0 (Harbour.maxAll Harbour.demo_ship))%Z.
Proof.
  assert (Hs : Harbour.ship_reachable Harbour.demo_deref Harbour.demo_ship)
    by (do 2 apply Harbour.ship_load; apply Harbour.ship_new).
  assert (Hint : (Harbour.maxAll Harbour.demo_ship <= Int.INT_MAX)%Z)
    by (vm_compute; discriminate).
  split; [ exact Hs | split; [ exact Hint | ] ].
  exact (proj1 (hold_within_limits Harbour.demo_deref _ Hs Hint)).
Defined.

Lemma weight_within_capacity_witness :
  Harbour.ship_reachable Harbour.demo_deref Harbour.demo_ship /\
  (forall a, 0 <= Harbour.getWeight (Harbour.demo_deref a) /\
             Z.max 0 (Harbour.totalWeightCapacity Harbour.demo_ship)
             + Harbour.getWeight (Harbour.demo_deref a) <= Int.INT_MAX)%Z /\
  (Harbour.weight_on_board Harbour.demo_deref Harbour.demo_ship
   <= Z.max 0 (Harbour.totalWeightCapacity Harbour.demo_ship))%Z.
Proof.
  assert (Hs : Harbour.ship_reachable Harbour.demo_deref Harbour.demo_ship)
    by (do 2 apply Harbour.ship_load; apply Harbour.ship_new).
  assert (Hw : forall a,
             (0 <= Harbour.getWeight (Harbour.demo_deref a) /\
              Z.max 0 (Harbour.totalWeightCapacity Harbour.demo_ship)
              + Harbour.getWeight (Harbour.demo_deref a) <= Int.INT_MAX)%Z).
  { intros a. change (Harbour.totalWeightCapacity Harbour.demo_ship) with 20000%Z.
    unfold Int.INT_MAX, Harbour.demo_deref.
    destruct a as [[a|a|]|[a|a|]|]; simpl; lia. }
  split; [ exact Hs | split; [ exact Hw | ] ].
  exact (weight_within_capacity Harbour.demo_deref _ Hs Hw).
Defined.

Example demo_ship_hold :
  Harbour.ship_containers Harbour.demo_ship = [1%positive; 2%positive]
  /\ Harbour.weight_on_board Harbour.demo_deref Harbour.demo_ship = 6000%Z.
Proof. split; reflexivity. Qed.

(** A limit on "Heavy" containers does not hold back a refrigerated one,
    whose [type()] is its own. *)
Example refrigerated_not_heavy :
  fst (Harbour.load Harbour.demo_deref (Harbour.newShip 0 None 20000 5 0 2 2) 3) = true
  /\ fst (Harbour.load Harbour.demo_deref (Harbour.newShip 0 None 20000 5 0 2 2) 2)
     = false.
Proof. split; reflexivity. Qed.

Example load_over_capacity :
  Harbour.load Harbour.demo_deref (Harbour.newShip 0 None 4000 5 3 2 2) 2
  = (false, Harbour.newShip 0 None 4000 5 3 2 2).
Proof. reflexivity. Qed.
